(** * go-diff: printing unified diffs and reading git header arguments

    A shallow embedding of [diff/print.go], the printer of file diffs and
    hunks, and of the three helpers that the package tests exercise and whose
    code is not among the sources: the decoder of quoted filenames, the
    splitter of the arguments of a [diff --git] line and the ordering of
    extended header lines.  The helpers are modelled from the specification
    and checked against the tables of the tests.

    Go strings are modelled by [string] (a sequence of 8-bit characters),
    byte slices by [list byte], a [bytes.Buffer] by the state of a small
    writer monad, and a run-time panic by the result [Panic].  What the
    printer calls outside [print.go] (time formatting, [filepath], the
    message template, the tables of [strconv.IsPrint]) is the class
    [Collaborators]. *)

From Stdlib Require Import List String Ascii Strings.Byte NArith Arith Lia Bool.
From Stdlib Require Import DecimalString Permutation Sorted.
Import ListNotations.
Local Open Scope list_scope.
Local Open Scope string_scope.

(** ** Characters and conversions *)

Definition LF : ascii := "010"%char.
Definition DQ : ascii := "034"%char.
Definition BSL : ascii := "092"%char.
Definition SP : ascii := " "%char.

(** The newline that [fmt.Fprintln] appends. *)
Definition nl : string := String LF "".

Definition bytes : Type := list byte.

(** The conversion [[]byte(s)]. *)
Definition bytes_of (s : string) : bytes := list_byte_of_string s.

(** The byte ['\n']. *)
Definition LFb : byte := x0a.

(** [%d] of a non-negative integer. *)
Definition itoa (n : N) : string := NilZero.string_of_uint (N.to_uint n).

(** ** Go library functions on strings and byte slices *)

(** [strings.HasPrefix(s, prefix)]. *)
Definition HasPrefix (s pre : string) : bool := String.prefix pre s.

(** [s[n:]] on a string, used where the source has checked the prefix. *)
Fixpoint dropString (n : nat) (s : string) : string :=
  match n, s with
  | O, _ => s
  | S n', String _ s' => dropString n' s'
  | S _, EmptyString => EmptyString
  end.

Fixpoint bytes_eqb (a b : bytes) : bool :=
  match a, b with
  | [], [] => true
  | x :: a', y :: b' => Byte.eqb x y && bytes_eqb a' b'
  | _, _ => false
  end.

(** [bytes.HasSuffix(s, suffix)]:
    [len(s) >= len(suffix) && bytes.Equal(s[len(s)-len(suffix):], suffix)]. *)
Definition HasSuffix (s suffix : bytes) : bool :=
  Nat.leb (List.length suffix) (List.length s)
  && bytes_eqb (skipn (List.length s - List.length suffix) s) suffix.

(** ** Panics and the buffer *)

Inductive result (A : Type) : Type :=
| Ok (a : A)
| Panic.
Arguments Ok {A} a.
Arguments Panic {A}.

(** A Go byte slice: its elements, and what the backing array holds between
    its length and its capacity.  The high bound of a slice expression on a
    slice is checked against the capacity, the low bound against the high
    bound (the length, when the high bound is omitted). *)
Record ByteSlice : Type := { elems : bytes; spare : bytes }.

Definition len (b : ByteSlice) : nat := List.length (elems b).
Definition cap (b : ByteSlice) : nat := List.length (elems b) + List.length (spare b).

(** [b[:n]], panicking when [n > cap(b)]. *)
Definition slice_hi (b : ByteSlice) (n : nat) : result bytes :=
  if Nat.leb n (cap b) then Ok (firstn n (elems b ++ spare b)) else Panic.

(** [b[n:]], panicking when [n > len(b)]. *)
Definition slice_lo (b : ByteSlice) (n : nat) : result bytes :=
  if Nat.leb n (len b) then Ok (skipn n (elems b)) else Panic.

(** A computation that writes to a [bytes.Buffer]: the state is the buffer's
    content.  Writes to a buffer return a nil error, so the [err != nil]
    branches of the source are never taken; what remains is the panic of an
    out-of-range slice expression. *)
Definition Writer (A : Type) : Type := bytes -> result (A * bytes).

Definition ret {A : Type} (a : A) : Writer A := fun buf => Ok (a, buf).

Definition bind {A B : Type} (m : Writer A) (k : A -> Writer B) : Writer B :=
  fun buf =>
    match m buf with
    | Ok (a, buf') => k a buf'
    | Panic => Panic
    end.

Notation "x <- m ;; k" := (bind m (fun x => k))
  (at level 61, m at next level, right associativity).
Notation "m ;; k" := (bind m (fun _ => k))
  (at level 61, right associativity).

(** [buf.Write(p)]. *)
Definition Write (p : bytes) : Writer unit := fun buf => Ok (tt, (buf ++ p)%list).

(** [fmt.Fprint(&buf, s)] and [fmt.Fprintf] once the verbs are filled in. *)
Definition Fprint (s : string) : Writer unit := Write (bytes_of s).

(** [fmt.Fprintln(&buf, s)]. *)
Definition Fprintln (s : string) : Writer unit := Write (bytes_of (s ++ nl)).

(** The value of an expression that may panic. *)
Definition eval {A : Type} (r : result A) : Writer A :=
  fun buf => match r with Ok a => Ok (a, buf) | Panic => Panic end.

(** [for _, x := range l { f x }]. *)
Fixpoint forEach {A : Type} (l : list A) (f : A -> Writer unit) : Writer unit :=
  match l with
  | [] => ret tt
  | x :: l' => f x ;; forEach l' f
  end.

(** [var buf bytes.Buffer; ...; return buf.Bytes(), nil]. *)
Definition Bytes (m : Writer unit) : result bytes :=
  match m [] with
  | Ok (_, buf) => Ok buf
  | Panic => Panic
  end.

(** [m] appends [out] to the buffer and does not panic. *)
Definition writes (m : Writer unit) (out : bytes) : Prop :=
  forall buf, m buf = Ok (tt, (buf ++ out)%list).

(** ** Hunks *)

(** Modelled from the spec: the declaration of [Hunk] is not in [print.go];
    section 3 of the specification gives the four range numbers as
    non-negative integers and the no-newline mark as a byte offset into the
    body that is zero or positive.  The printer receives pointers to hunks
    and to file diffs; they are taken to be non-nil. *)
Record Hunk : Type := {
  OrigStartLine : N;
  OrigLines : N;
  OrigNoNewlineAt : N;
  NewStartLine : N;
  NewLines : N;
  Section : string;
  Body : ByteSlice
}.

(** Modelled from the spec: the constant [noNewlineMessage] is declared
    outside [print.go]; section 4.4 names the conventional notice. *)
Definition noNewlineMessage : string := "\ No newline at end of file".

Definition printNoNewlineMessage : Writer unit :=
  Write (bytes_of noNewlineMessage) ;;
  Fprintln "".

(** The body of the loop of [PrintHunks]. *)
Definition printHunk (hunk : Hunk) : Writer unit :=
  Fprint ("@@ -" ++ itoa (OrigStartLine hunk) ++ "," ++ itoa (OrigLines hunk)
          ++ " +" ++ itoa (NewStartLine hunk) ++ "," ++ itoa (NewLines hunk) ++ " @@") ;;
  (if String.eqb (Section hunk) "" then ret tt
   else Fprint (" " ++ Section hunk)) ;;
  Fprintln "" ;;
  (if N.eqb (OrigNoNewlineAt hunk) 0 then Write (elems (Body hunk))
   else
     p <- eval (slice_hi (Body hunk) (N.to_nat (OrigNoNewlineAt hunk))) ;;
     Write p ;;
     printNoNewlineMessage ;;
     q <- eval (slice_lo (Body hunk) (N.to_nat (OrigNoNewlineAt hunk))) ;;
     Write q) ;;
  (if negb (HasSuffix (elems (Body hunk)) [LFb]) then
     Fprintln "" ;;
     printNoNewlineMessage
   else ret tt).

(** [PrintHunks] prints diff hunks in unified diff format. *)
Definition PrintHunks (hunks : list Hunk) : result bytes :=
  Bytes (forEach hunks printHunk).

(** The rendering of one hunk as section 4.4 of the specification words it,
    to be compared with what [PrintHunks] writes. *)
Definition rangeHeader (h : Hunk) : string :=
  "@@ -" ++ itoa (OrigStartLine h) ++ "," ++ itoa (OrigLines h)
  ++ " +" ++ itoa (NewStartLine h) ++ "," ++ itoa (NewLines h) ++ " @@"
  ++ (if String.eqb (Section h) "" then "" else " " ++ Section h)
  ++ nl.

(** The no-newline marker on a line of its own. *)
Definition markerLine : bytes := bytes_of (noNewlineMessage ++ nl).

Definition bodyWithMarker (h : Hunk) : bytes :=
  let body := elems (Body h) in
  let at_ := N.to_nat (OrigNoNewlineAt h) in
  if N.eqb (OrigNoNewlineAt h) 0 then body
  else (firstn at_ body ++ markerLine ++ skipn at_ body)%list.

Definition trailingMarker (h : Hunk) : bytes :=
  if HasSuffix (elems (Body h)) [LFb] then [] else (LFb :: markerLine)%list.

Definition renderHunk (h : Hunk) : bytes :=
  (bytes_of (rangeHeader h) ++ bodyWithMarker h ++ trailingMarker h)%list.

(** [OrigNoNewlineAt] is an offset into [Body]. *)
Definition offsetInBody (h : Hunk) : Prop :=
  N.to_nat (OrigNoNewlineAt h) <= len (Body h).

(** ** The filename token decoder *)

(** String literals of this file hold no double quote: [lit] reads a single
    quote as one, so that [lit "'a' b"] is the Go raw string with [a] in
    double quotes.  A backslash in a literal stands for itself, as in a Go
    raw string. *)
Fixpoint lit (s : string) : string :=
  match s with
  | EmptyString => EmptyString
  | String c s' => String (if Ascii.eqb c "'"%char then DQ else c) (lit s')
  end.

(** The result of decoding: the value and the unconsumed remainder, or the
    malformed-token error. *)
Inductive Decoded : Type :=
| Token (value remainder : string)
| Malformed.

(** An escape table reads the text that follows a backslash and gives the
    decoded characters with the number of characters the escape takes. *)
Definition EscapeTable : Type := string -> option (string * nat).

(** Modelled from the spec: [readQuotedFilename] is not in the sources (only
    its tests are).  Section 4.1: the opening quote is consumed, characters
    are copied, an escape is decoded through the table, and decoding stops
    at the first unescaped double quote, which is consumed; the text after
    it is returned as it stands.  [skip] counts the characters of an escape
    still to be passed over. *)
Fixpoint decodeFrom (tbl : EscapeTable) (skip : nat) (acc s : string) : Decoded :=
  match s with
  | EmptyString => Malformed
  | String c rest =>
      match skip with
      | S k => decodeFrom tbl k acc rest
      | O =>
          if Ascii.eqb c DQ then Token acc rest
          else if Ascii.eqb c BSL then
            match tbl rest with
            | Some (out, n) => decodeFrom tbl n (acc ++ out) rest
            | None => Malformed
            end
          else decodeFrom tbl 0 (acc ++ String c "") rest
      end
  end.

Definition readQuotedFilename (tbl : EscapeTable) (text : string) : Decoded :=
  match text with
  | String c rest => if Ascii.eqb c DQ then decodeFrom tbl 0 "" rest else Malformed
  | EmptyString => Malformed
  end.

(** Modelled from the spec: the escapes of section 4.1, backslash-quote and
    backslash-backslash and no other. *)
Definition specEscapes : EscapeTable := fun rest =>
  match rest with
  | String c _ =>
      if Ascii.eqb c DQ then Some (String DQ "", 1)
      else if Ascii.eqb c BSL then Some (String BSL "", 1)
      else None
  | EmptyString => None
  end.

Definition octalDigit (c : ascii) : option N :=
  let n := N_of_ascii c in
  if (48 <=? n)%N && (n <=? 55)%N then Some (n - 48)%N else None.

Definition hexDigit (c : ascii) : option N :=
  let n := N_of_ascii c in
  if (48 <=? n)%N && (n <=? 57)%N then Some (n - 48)%N
  else if (97 <=? n)%N && (n <=? 102)%N then Some (n - 87)%N
  else if (65 <=? n)%N && (n <=? 70)%N then Some (n - 55)%N
  else None.

Definition simpleEscape (c : ascii) : option ascii :=
  if Ascii.eqb c "a" then Some "007"%char
  else if Ascii.eqb c "b" then Some "008"%char
  else if Ascii.eqb c "f" then Some "012"%char
  else if Ascii.eqb c "n" then Some "010"%char
  else if Ascii.eqb c "r" then Some "013"%char
  else if Ascii.eqb c "t" then Some "009"%char
  else if Ascii.eqb c "v" then Some "011"%char
  else if Ascii.eqb c BSL then Some BSL
  else if Ascii.eqb c DQ then Some DQ
  else None.

(** The escapes of a Go string literal that the package tests decode and
    that the printer's quoting writes for ASCII text: the one-letter
    escapes, three octal digits up to 377 and [x] with two hex digits.  The
    test of the decoder's errors names this syntax (a backslash-x that no
    two hex digits follow is not a valid Go string literal escape). *)
Definition literalEscapes : EscapeTable := fun rest =>
  match rest with
  | EmptyString => None
  | String c rest1 =>
      match simpleEscape c with
      | Some d => Some (String d "", 1)
      | None =>
          if Ascii.eqb c "x" then
            match rest1 with
            | String h1 (String h2 _) =>
                match hexDigit h1, hexDigit h2 with
                | Some a, Some b => Some (String (ascii_of_N (16 * a + b)) "", 3)
                | _, _ => None
                end
            | _ => None
            end
          else
            match octalDigit c, rest1 with
            | Some a, String o2 (String o3 _) =>
                match octalDigit o2, octalDigit o3 with
                | Some b, Some d =>
                    if (64 * a + 8 * b + d <=? 255)%N
                    then Some (String (ascii_of_N (64 * a + 8 * b + d)) "", 3)
                    else None
                | _, _ => None
                end
            | _, _ => None
            end
      end
  end.

(** The escape is decided by the characters it takes. *)
Definition tableLocal (tbl : EscapeTable) : Prop :=
  forall rest out n, tbl rest = Some (out, n) ->
    forall rest', substring 0 n rest' = substring 0 n rest -> tbl rest' = Some (out, n).

(** The table decodes the two escapes of section 4.1. *)
Definition tableHasBasics (tbl : EscapeTable) : Prop :=
  (forall rest, tbl (String DQ rest) = Some (String DQ "", 1))
  /\ (forall rest, tbl (String BSL rest) = Some (String BSL "", 1)).

(** The encoding that the two escapes of section 4.1 undo. *)
Definition encodeChar (c : ascii) : string :=
  if Ascii.eqb c DQ then String BSL (String DQ "")
  else if Ascii.eqb c BSL then String BSL (String BSL "")
  else String c "".

Fixpoint encode (value : string) : string :=
  match value with
  | EmptyString => EmptyString
  | String c v => encodeChar c ++ encode v
  end.

(** ** The splitter of the arguments of a [diff --git] line *)

Fixpoint contains (c : ascii) (s : string) : bool :=
  match s with
  | EmptyString => false
  | String d s' => Ascii.eqb c d || contains c s'
  end.

Fixpoint countChar (c : ascii) (s : string) : nat :=
  match s with
  | EmptyString => 0
  | String d s' => (if Ascii.eqb c d then 1 else 0) + countChar c s'
  end.

(** An unquoted argument is not empty and holds no quote. *)
Definition unquotedArg (s : string) : bool :=
  negb (String.eqb s "") && negb (contains DQ s).

(** The second argument, which must take the text to its end. *)
Definition completeArg (tbl : EscapeTable) (s : string) : option string :=
  match s with
  | EmptyString => None
  | String c _ =>
      if Ascii.eqb c DQ then
        match readQuotedFilename tbl s with
        | Token v EmptyString => Some v
        | _ => None
        end
      else if unquotedArg s then Some s else None
  end.

(** Modelled from the spec: step 2 of section 4.2 as it is worded.  The
    unquoted first argument is scanned from the left; at each space the rest
    is tried as the complete second argument and the first space that
    succeeds is the split; a quote inside the unquoted argument fails. *)
Fixpoint firstSplit (tbl : EscapeTable) (first s : string) : option (string * string) :=
  match s with
  | EmptyString => None
  | String c rest =>
      if Ascii.eqb c DQ then None
      else if Ascii.eqb c SP then
        match completeArg tbl rest with
        | Some second => Some (first, second)
        | None => firstSplit tbl (first ++ String c "") rest
        end
      else firstSplit tbl (first ++ String c "") rest
  end.

(** The split that the package test requires of an unquoted text with
    several spaces: the space in the middle, between two names of the form
    [p/name] that agree after their first character. *)
Definition middleSplit (s : string) : option (string * string) :=
  let n := String.length s in
  let first := substring 0 (n / 2) s in
  let second := substring (n / 2 + 1) (n - (n / 2 + 1)) s in
  match get (n / 2) s, get 1 first with
  | Some sp, Some sl =>
      if Nat.odd n && Ascii.eqb sp SP && Ascii.eqb sl "/"
         && Nat.leb 3 (String.length first)
         && String.eqb (dropString 1 first) (dropString 1 second)
      then Some (first, second) else None
  | _, _ => None
  end.

(** How an unquoted text with several spaces is split: by the rule of
    section 4.2 as worded, or by the split the package test requires. *)
Inductive SplitRule : Type := FirstComplete | Symmetric.

Definition splitUnquoted (rule : SplitRule) (tbl : EscapeTable) (s : string)
  : option (string * string) :=
  match rule with
  | FirstComplete => firstSplit tbl "" s
  | Symmetric =>
      if negb (contains DQ s) && Nat.leb 2 (countChar SP s)
      then middleSplit s
      else firstSplit tbl "" s
  end.

(** Modelled from the spec: [parseDiffGitArgs] is not in the sources (only
    its tests are).  Section 4.2: a quoted first argument is decoded and a
    space and the complete second argument follow it (step 1); an unquoted
    one is split off by [splitUnquoted] (step 2); the operation succeeds
    only with both arguments non-empty (step 3).  [None] is the boolean
    false of the Go function. *)
Definition parseDiffGitArgs (rule : SplitRule) (tbl : EscapeTable) (diffArgs : string)
  : option (string * string) :=
  let found :=
    match diffArgs with
    | EmptyString => None
    | String c _ =>
        if Ascii.eqb c DQ then
          match readQuotedFilename tbl diffArgs with
          | Token first (String sp rest) =>
              if Ascii.eqb sp SP then
                match completeArg tbl rest with
                | Some second => Some (first, second)
                | None => None
                end
              else None
          | _ => None
          end
        else splitUnquoted rule tbl diffArgs
    end in
  match found with
  | Some (first, second) =>
      if String.eqb first "" || String.eqb second "" then None else found
  | None => None
  end.

(** One argument read from the text [t] alone. *)
Definition readsAs (tbl : EscapeTable) (t v : string) : Prop :=
  readQuotedFilename tbl t = Token v "" \/ (t = v /\ unquotedArg t = true).

(** ** The tables of the package tests *)

(** [TestReadQuotedFilename_Success]: input, value, remainder. *)
Definition TestReadQuotedFilename_Success : list (string * string * string) :=
  [ (lit "''", "", "");
    (lit "'aaa'", "aaa", "");
    (lit "'aaa' bbb", "aaa", " bbb");
    (lit "'aaa' 'bbb' ccc", "aaa", lit " 'bbb' ccc");
    (lit "'\''", lit "'", "");
    (lit "'uh \'oh\''", lit "uh 'oh'", "");
    (lit "'uh \\'oh\\''", "uh \", lit "oh\\''");
    (lit "'uh \\\'oh\\\''", lit "uh \'oh\'", "") ].

(** [TestReadQuotedFilename_Error]. *)
Definition TestReadQuotedFilename_Error : list string :=
  [ ""; "foo"; lit " 'foo'"; lit "'"; lit "'\'"; lit "'\xxx'" ].

(** [TestParseDiffGitArgs_Success]: input, first, second. *)
Definition TestParseDiffGitArgs_Success : list (string * string * string) :=
  [ ("aaa bbb", "aaa", "bbb");
    (lit "'aaa' bbb", "aaa", "bbb");
    (lit "aaa 'bbb'", "aaa", "bbb");
    (lit "'aaa' 'bbb'", "aaa", "bbb");
    ("1/a 2/z", "1/a", "2/z");
    ("1/hello world 2/hello world", "1/hello world", "2/hello world");
    (lit "'new\nline' and spaces", "new" ++ nl ++ "line", "and spaces");
    (lit "a/existing file with spaces 'b/new, complicated\nfilen\303\270me'",
     "a/existing file with spaces",
     "b/new, complicated" ++ nl ++ "filen" ++ String "195"%char (String "184"%char "me")) ].

(** [TestParseDiffGitArgs_Unsuccessful]. *)
Definition TestParseDiffGitArgs_Unsuccessful : list string :=
  [ ""; "hello_world.txt"; "word "; " word";
    lit "'a/bad_quoting b/bad_quoting";
    lit "a/bad_quoting 'b/bad_quoting";
    lit "a/bad_quoting b/bad_quoting'";
    lit "'a/bad_quoting b/bad_quoting'";
    lit "'a/bad''b/bad'";
    lit "'a/bad' 'b/bad' 'c/bad'";
    lit "a/bad 'b/bad' 'c/bad'" ].

Definition Decoded_eqb (a b : Decoded) : bool :=
  match a, b with
  | Token v r, Token v' r' => String.eqb v v' && String.eqb r r'
  | Malformed, Malformed => true
  | _, _ => false
  end.

Definition args_eqb (a b : option (string * string)) : bool :=
  match a, b with
  | Some (x, y), Some (x', y') => String.eqb x x' && String.eqb y y'
  | None, None => true
  | _, _ => false
  end.

(** What the four tests check, for a given escape table and split rule. *)
Definition passesReadQuotedFilename_Success (tbl : EscapeTable) : bool :=
  forallb (fun tc => match tc with (input, value, remainder) =>
             Decoded_eqb (readQuotedFilename tbl input) (Token value remainder) end)
          TestReadQuotedFilename_Success.

Definition passesReadQuotedFilename_Error (tbl : EscapeTable) : bool :=
  forallb (fun input => Decoded_eqb (readQuotedFilename tbl input) Malformed)
          TestReadQuotedFilename_Error.

Definition passesRow (rule : SplitRule) (tbl : EscapeTable) (tc : string * string * string) : bool :=
  match tc with (input, first, second) =>
    args_eqb (parseDiffGitArgs rule tbl input) (Some (first, second)) end.

Definition passesParseDiffGitArgs_Success (rule : SplitRule) (tbl : EscapeTable) : bool :=
  forallb (passesRow rule tbl) TestParseDiffGitArgs_Success.

Definition passesParseDiffGitArgs_Unsuccessful (rule : SplitRule) (tbl : EscapeTable) : bool :=
  forallb (fun input => args_eqb (parseDiffGitArgs rule tbl input) None)
          TestParseDiffGitArgs_Unsuccessful.

(** ** The ordering of extended header lines *)

(** The kinds of extended header lines, read off a line's prefix. *)
Inductive HeaderKind : Type :=
| DiffGit | OldMode | NewMode
| SimilarityIndex | RenameFrom | RenameTo | Index
| Unrecognized.

Definition classify (line : string) : HeaderKind :=
  if HasPrefix line "diff --git" then DiffGit
  else if HasPrefix line "old mode" then OldMode
  else if HasPrefix line "new mode" then NewMode
  else if HasPrefix line "similarity index" then SimilarityIndex
  else if HasPrefix line "rename from" then RenameFrom
  else if HasPrefix line "rename to" then RenameTo
  else if HasPrefix line "index" then Index
  else Unrecognized.

(** The canonical position of a kind: the git line, the old mode, the new
    mode, the other recognized kinds together, the unrecognized lines last. *)
Definition rank (k : HeaderKind) : nat :=
  match k with
  | DiffGit => 0
  | OldMode => 1
  | NewMode => 2
  | SimilarityIndex | RenameFrom | RenameTo | Index => 3
  | Unrecognized => 4
  end.

(** The position of a line's kind. *)
Definition lineRank (line : string) : nat := rank (classify line).

(** Modelled from the spec: [xheadersLessFunc] is not in the sources (only
    its test is).  Section 4.3: lines are ordered by the position of their
    kind; the recognized kinds after the mode lines keep their relative
    order; unrecognized lines compare lexically among themselves. *)
Definition xheadersLessFunc (a b : string) : bool :=
  let ra := lineRank a in
  let rb := lineRank b in
  if Nat.ltb ra rb then true
  else if Nat.ltb rb ra then false
  else if Nat.eqb ra 4 then String.ltb a b
  else false.

(** The inner loop of the insertion sort of package [sort]: the element [x]
    moves left past every element it is less than.  [sorted] is the part
    already sorted, last element first. *)
Fixpoint sink {A : Type} (less : A -> A -> bool) (x : A) (sorted : list A) : list A :=
  match sorted with
  | [] => [x]
  | y :: sorted' => if less x y then y :: sink less x sorted' else x :: sorted
  end.

(** [sort.Slice(data, less)] on a slice of at most twelve elements, which
    the package sorts by insertion. *)
Definition sortSlice {A : Type} (less : A -> A -> bool) (data : list A) : list A :=
  rev (fold_left (fun sorted x => sink less x sorted) data []).

(** [possibleHeaders] of [Test_xheadersLessFunc]. *)
Definition possibleHeaders : list string :=
  [ "old mode 100755";
    "new mode 100644";
    "diff --git a/file1 b/file2";
    "similarity index 70%";
    "rename from file1";
    "rename to file2";
    "index a9f9a6b..b0e5e4f" ].

(** The seven recognized kinds of [possibleHeaders], in canonical order. *)
Definition recognizedKinds : list HeaderKind :=
  [DiffGit; OldMode; NewMode; SimilarityIndex; RenameFrom; RenameTo; Index].

Fixpoint removeAt {A : Type} (i : nat) (l : list A) : list A :=
  match i, l with
  | _, [] => []
  | O, _ :: l' => l'
  | S i', x :: l' => x :: removeAt i' l'
  end.

(** [permutations] of the test file; [fuel] bounds the depth of the
    recursion, which the length of the slice decreases. *)
Fixpoint permutations (fuel : nat) (slice : list string) : list (list string) :=
  match fuel with
  | O => []
  | S fuel' =>
      if Nat.eqb (List.length slice) 1 then [slice]
      else
        flat_map
          (fun i =>
             let v := nth i slice "" in
             map (fun permutation => (permutation ++ [v])%list)
                 (permutations fuel' (removeAt i slice)))
          (seq 0 (List.length slice))
  end.

(** What [Test_xheadersLessFunc] checks of one sorted input. *)
Definition canonicalStart (sorted : list string) : bool :=
  match sorted with
  | first :: second :: third :: _ =>
      HasPrefix first "diff --git" && HasPrefix second "old mode"
      && HasPrefix third "new mode"
  | _ => false
  end.

Definition notLess {A : Type} (less : A -> A -> bool) (a b : A) : Prop :=
  less a b = false.

(** No element is less than one that stands before it. *)
Definition sortedBy {A : Type} (less : A -> A -> bool) (l : list A) : Prop :=
  StronglySorted (fun a b => notLess less b a) l.

(** ** The quoting of [fmt.Sprintf] with the verb [%q]

    For a string operand the verb is [strconv.Quote]: a Go string literal in
    double quotes, the text read rune by rune. *)

Definition lowerhex (n : N) : ascii :=
  match get (N.to_nat n) "0123456789abcdef" with
  | Some c => c
  | None => "0"%char
  end.

Definition hexDigits (width : nat) (r : N) : string :=
  string_of_list_ascii
    (map (fun i => lowerhex (N.land (N.shiftr r (4 * N.of_nat i)) 15)) (rev (seq 0 width))).

Definition RuneError : N := 0xFFFD%N.
Definition MaxRune : N := 0x10FFFF%N.

Definition between (lo hi b : N) : bool := (lo <=? b)%N && (b <=? hi)%N.

Definition byteAt (i : nat) (s : string) : N :=
  match get i s with
  | Some c => N_of_ascii c
  | None => 0%N
  end.

(** The table [first] of package [utf8] for a leading byte above ASCII: the
    size of the sequence and the range accepted for its second byte. *)
Definition firstInfo (s0 : N) : option (nat * N * N) :=
  if between 0xC2%N 0xDF%N s0 then Some (2, 0x80%N, 0xBF%N)
  else if (s0 =? 0xE0)%N then Some (3, 0xA0%N, 0xBF%N)
  else if between 0xE1%N 0xEC%N s0 then Some (3, 0x80%N, 0xBF%N)
  else if (s0 =? 0xED)%N then Some (3, 0x80%N, 0x9F%N)
  else if between 0xEE%N 0xEF%N s0 then Some (3, 0x80%N, 0xBF%N)
  else if (s0 =? 0xF0)%N then Some (4, 0x90%N, 0xBF%N)
  else if between 0xF1%N 0xF3%N s0 then Some (4, 0x80%N, 0xBF%N)
  else if (s0 =? 0xF4)%N then Some (4, 0x80%N, 0x8F%N)
  else None.

(** [utf8.DecodeRuneInString]: the rune and its width. *)
Definition DecodeRuneInString (s : string) : N * nat :=
  match s with
  | EmptyString => (RuneError, 0)
  | String c0 _ =>
      let s0 := N_of_ascii c0 in
      if (s0 <? 0x80)%N then (s0, 1)
      else
        match firstInfo s0 with
        | None => (RuneError, 1)
        | Some (sz, lo, hi) =>
            let s1 := byteAt 1 s in
            let s2 := byteAt 2 s in
            let s3 := byteAt 3 s in
            if Nat.ltb (String.length s) sz then (RuneError, 1)
            else if (s1 <? lo)%N || (hi <? s1)%N then (RuneError, 1)
            else if Nat.leb sz 2 then
              (N.lor (N.shiftl (N.land s0 0x1F) 6) (N.land s1 0x3F), 2)
            else if (s2 <? 0x80)%N || (0xBF <? s2)%N then (RuneError, 1)
            else if Nat.leb sz 3 then
              (N.lor (N.shiftl (N.land s0 0x0F) 12)
                 (N.lor (N.shiftl (N.land s1 0x3F) 6) (N.land s2 0x3F)), 3)
            else if (s3 <? 0x80)%N || (0xBF <? s3)%N then (RuneError, 1)
            else
              (N.lor (N.shiftl (N.land s0 0x07) 18)
                 (N.lor (N.shiftl (N.land s1 0x3F) 12)
                    (N.lor (N.shiftl (N.land s2 0x3F) 6) (N.land s3 0x3F))), 4)
        end
  end.

Definition isSurrogate (r : N) : bool := between 0xD800%N 0xDFFF%N r.

(** [utf8.ValidRune]. *)
Definition ValidRune (r : N) : bool := (r <=? MaxRune)%N && negb (isSurrogate r).

Definition chr (n : N) : ascii := ascii_of_N n.

(** [utf8.AppendRune]: the UTF-8 encoding of a rune. *)
Definition AppendRune (r : N) : string :=
  let cont (sh : N) := chr (N.lor 0x80 (N.land (N.shiftr r sh) 0x3F)) in
  let three (r : N) :=
    String (chr (N.lor 0xE0 (N.shiftr r 12)))
      (String (chr (N.lor 0x80 (N.land (N.shiftr r 6) 0x3F)))
         (String (chr (N.lor 0x80 (N.land r 0x3F))) "")) in
  if (r <=? 0x7F)%N then String (chr r) ""
  else if (r <=? 0x7FF)%N then
    String (chr (N.lor 0xC0 (N.shiftr r 6))) (String (cont 0%N) "")
  else if negb (ValidRune r) then three RuneError
  else if (r <=? 0xFFFF)%N then three r
  else
    String (chr (N.lor 0xF0 (N.shiftr r 18)))
      (String (cont 12%N) (String (cont 6%N) (String (cont 0%N) ""))).

(** The one-letter escape of a control character, if it has one. *)
Definition namedEscape (r : N) : option ascii :=
  if (r =? 7)%N then Some "a"%char
  else if (r =? 8)%N then Some "b"%char
  else if (r =? 12)%N then Some "f"%char
  else if (r =? 10)%N then Some "n"%char
  else if (r =? 13)%N then Some "r"%char
  else if (r =? 9)%N then Some "t"%char
  else if (r =? 11)%N then Some "v"%char
  else None.

(** ** What the printer takes from outside [print.go] *)

Class Collaborators : Type := {
  (** A timestamp of package [time], and its rendering
      [timestamp.Format(diffTimeFormatLayout)]. *)
  Time : Type;
  formatTime : Time -> string;
  (** [filepath.Dir] and [filepath.Base]. *)
  Dir : string -> string;
  Base : string -> string;
  (** [fmt.Sprintf(onlyInMessage, dir, base)]: the template is a constant
      declared outside [print.go], with one place for each argument. *)
  onlyInMessage : string -> string -> string;
  (** The tables of [strconv.IsPrint] for runes above Latin-1. *)
  isPrintTable : N -> bool
}.

Section Printer.

Context {ext : Collaborators}.

(** [strconv.IsPrint]. *)
Definition IsPrint (r : N) : bool :=
  if (r <=? 0xFF)%N then
    if between 0x20%N 0x7E%N r then true
    else if between 0xA1%N 0xFF%N r then negb (r =? 0xAD)%N
    else false
  else isPrintTable r.

(** [appendEscapedRune] of package [strconv], for the double quote. *)
Definition appendEscapedRune (r : N) : string :=
  if (r =? N_of_ascii DQ)%N || (r =? N_of_ascii BSL)%N then String BSL (String (chr r) "")
  else if IsPrint r then AppendRune r
  else
    match namedEscape r with
    | Some c => String BSL (String c "")
    | None =>
        if (r <? 0x20)%N || (r =? 0x7F)%N then "\x" ++ hexDigits 2 r
        else if negb (ValidRune r) then "\u" ++ hexDigits 4 RuneError
        else if (r <? 0x10000)%N then "\u" ++ hexDigits 4 r
        else "\U" ++ hexDigits 8 r
    end.

(** The loop of [appendQuotedWith]; [skip] counts the bytes of the current
    rune still to be passed over. *)
Fixpoint quoteRunes (skip : nat) (s : string) : string :=
  match s with
  | EmptyString => EmptyString
  | String c0 rest =>
      match skip with
      | S k => quoteRunes k rest
      | O =>
          let (r, width) :=
            if (N_of_ascii c0 <? 0x80)%N then (N_of_ascii c0, 1)
            else DecodeRuneInString s in
          (if Nat.eqb width 1 && (r =? RuneError)%N
           then "\x" ++ hexDigits 2 (N_of_ascii c0)
           else appendEscapedRune r)
          ++ quoteRunes (width - 1) rest
      end
  end.

(** [strconv.Quote], the verb [%q]. *)
Definition strconvQuote (s : string) : string :=
  String DQ (quoteRunes 0 s ++ String DQ "").

(** ** [print.go] *)

(** Modelled from the spec: the declaration of [FileDiff] is not in
    [print.go]; section 3 of the specification lists its fields.  A nil
    [Hunks] is [None], a nil time is [None]. *)
Record FileDiff : Type := {
  OrigName : string;
  OrigTime : option Time;
  NewName : string;
  NewTime : option Time;
  Extended : list string;
  Hunks : option (list Hunk)
}.

Record PrintFileDiffOptions : Type := { quoteNames : bool }.

(** A [PrintFileDiffOption] updates the options it is given. *)
Definition PrintFileDiffOption : Type := PrintFileDiffOptions -> PrintFileDiffOptions.

Definition WithQuotedNames : PrintFileDiffOption :=
  fun opts => {| quoteNames := true |}.

Definition getOptions (opts : list PrintFileDiffOption) : PrintFileDiffOptions :=
  fold_left (fun options applyOption => applyOption options) opts {| quoteNames := false |}.

Definition quote (in_ : string) : string :=
  if String.eqb in_ "/dev/null" then in_
  else if HasPrefix in_ (String DQ "") && HasPrefix in_ (String DQ "") then in_
  else strconvQuote in_.

Definition printQuotedXheader (d : FileDiff) (xheader : string) : Writer unit :=
  if HasPrefix xheader "diff --git" then
    Fprint ("diff --git " ++ quote (OrigName d) ++ " " ++ quote (NewName d) ++ nl)
  else if HasPrefix xheader "rename from " then
    let rem := dropString (String.length "rename from ") xheader in
    Fprint ("rename from " ++ quote rem ++ nl)
  else if HasPrefix xheader "rename to " then
    let rem := dropString (String.length "rename to ") xheader in
    Fprint ("rename to " ++ quote rem ++ nl)
  else Fprintln xheader.

Definition printFileHeader (prefix filename : string) (timestamp : option Time)
    (quoteName : bool) : Writer unit :=
  let filename := if quoteName then quote filename else filename in
  Fprint (prefix ++ filename) ;;
  match timestamp with
  | Some t => Fprint (String "009"%char "" ++ formatTime t)
  | None => ret tt
  end ;;
  Fprintln "".

(** [PrintFileDiff] prints a [FileDiff] in unified diff format. *)
Definition PrintFileDiff (d : FileDiff) (options : list PrintFileDiffOption) : result bytes :=
  let opts := getOptions options in
  Bytes (
    forEach (Extended d) (fun xheader =>
      if quoteNames opts then printQuotedXheader d xheader
      else Fprintln xheader) ;;
    if String.eqb (NewName d) "" then
      Fprint (onlyInMessage (Dir (OrigName d)) (Base (OrigName d)))
    else
      match Hunks d with
      | None => ret tt
      | Some hunks =>
          printFileHeader "--- " (OrigName d) (OrigTime d) (quoteNames opts) ;;
          printFileHeader "+++ " (NewName d) (NewTime d) (quoteNames opts) ;;
          ph <- eval (PrintHunks hunks) ;;
          Write ph
      end).

(** [PrintMultiFileDiff] prints a multi-file diff in unified diff format. *)
Definition PrintMultiFileDiff (ds : list FileDiff) (options : list PrintFileDiffOption)
  : result bytes :=
  Bytes (forEach ds (fun d =>
    diff <- eval (PrintFileDiff d options) ;;
    Write diff)).

(** What the loop over [d.Extended] writes for one line, given the two
    names of the file diff. *)
Definition xheaderLine (quoteNames_ : bool) (origName newName xheader : string) : string :=
  if quoteNames_ then
    if HasPrefix xheader "diff --git" then
      "diff --git " ++ quote origName ++ " " ++ quote newName ++ nl
    else if HasPrefix xheader "rename from " then
      "rename from " ++ quote (dropString 12 xheader) ++ nl
    else if HasPrefix xheader "rename to " then
      "rename to " ++ quote (dropString 10 xheader) ++ nl
    else xheader ++ nl
  else xheader ++ nl.

(** The extended header lines as printed: they depend on the options, the
    two names and the lines, and on nothing else of the file diff. *)
Definition extendedHeaders (options : list PrintFileDiffOption)
    (origName newName : string) (extended : list string) : bytes :=
  List.concat
    (map (fun xheader =>
            bytes_of (xheaderLine (quoteNames (getOptions options)) origName newName xheader))
         extended).

(** A file header line: prefix, name, a tab and the time if there is one,
    newline. *)
Definition fileHeaderLine (prefix filename : string) (timestamp : option Time)
    (quoteName : bool) : string :=
  prefix ++ (if quoteName then quote filename else filename)
  ++ match timestamp with
     | Some t => String "009"%char "" ++ formatTime t
     | None => ""
     end
  ++ nl.

(** The results of several prints put together: the concatenation in
    order, and a panic when one of them panics. *)
Fixpoint concatResults (rs : list (result bytes)) : result bytes :=
  match rs with
  | [] => Ok []
  | r :: rs' =>
      match r, concatResults rs' with
      | Ok a, Ok b => Ok (a ++ b)%list
      | _, _ => Panic
      end
  end.

(** The text quoted byte by byte, for text that is ASCII throughout: quote
    and backslash take a backslash, a control character its one-letter
    escape or [\x] and two hex digits, any other character stands as it
    is. *)
Definition escapeASCII (c : ascii) : string :=
  let n := N_of_ascii c in
  if Ascii.eqb c DQ || Ascii.eqb c BSL then String BSL (String c "")
  else if between 0x20%N 0x7E%N n then String c ""
  else
    match namedEscape n with
    | Some e => String BSL (String e "")
    | None => "\x" ++ hexDigits 2 n
    end.

Fixpoint escapeAll (s : string) : string :=
  match s with
  | EmptyString => EmptyString
  | String c s' => escapeASCII c ++ escapeAll s'
  end.

Fixpoint isASCII (s : string) : bool :=
  match s with
  | EmptyString => true
  | String c s' => (N_of_ascii c <? 0x80)%N && isASCII s'
  end.

(** Bytes above ASCII throughout. *)
Fixpoint allWide (s : string) : bool :=
  match s with
  | EmptyString => true
  | String c s' => (0x80 <=? N_of_ascii c)%N && allWide s'
  end.

(** [QuotedAs s out]: [out] renders [s] with every ASCII byte escaped as
    [escapeASCII] has it, in order, and with something in the place of each
    run of bytes above ASCII. *)
Inductive QuotedAs : string -> string -> Prop :=
| quoted_end : QuotedAs "" ""
| quoted_ascii (c : ascii) (s out : string) :
    (N_of_ascii c <? 0x80)%N = true ->
    QuotedAs s out ->
    QuotedAs (String c s) (escapeASCII c ++ out)
| quoted_wide (u piece s out : string) :
    u <> "" -> allWide u = true ->
    QuotedAs s out ->
    QuotedAs (u ++ s) (piece ++ out).

End Printer.

(** ** Sample values *)

(** A hunk with a section text whose body ends with a newline. *)
Definition hunkA : Hunk :=
  {| OrigStartLine := 1; OrigLines := 2; OrigNoNewlineAt := 0;
     NewStartLine := 1; NewLines := 2; Section := "func main()";
     Body := {| elems := bytes_of ("-a" ++ nl ++ "+b" ++ nl ++ " c" ++ nl); spare := [] |} |}.

(** A hunk as a parser leaves it when neither side ends with a newline: the
    original side is marked after its last line and the body has lost its
    final newline. *)
Definition hunkB : Hunk :=
  {| OrigStartLine := 7; OrigLines := 1; OrigNoNewlineAt := 3;
     NewStartLine := 7; NewLines := 1; Section := "";
     Body := {| elems := bytes_of ("-a" ++ nl ++ "+b"); spare := [] |} |}.

(** A hunk whose mark lies beyond its body of three bytes. *)
Definition hunkC : Hunk :=
  {| OrigStartLine := 1; OrigLines := 0; OrigNoNewlineAt := 5;
     NewStartLine := 1; NewLines := 1; Section := "";
     Body := {| elems := bytes_of ("+a" ++ nl); spare := [] |} |}.

(** A hunk made by hand: the body has no final newline and the mark stands
    at its end. *)
Definition hunkD : Hunk :=
  {| OrigStartLine := 1; OrigLines := 1; OrigNoNewlineAt := 2;
     NewStartLine := 1; NewLines := 0; Section := "";
     Body := {| elems := bytes_of "-a"; spare := [] |} |}.

(** A deleted file: no new name; its one hunk is [hunkC]. *)
Definition deletedFile {ext : Collaborators} : FileDiff :=
  {| OrigName := "dir/old.txt"; OrigTime := None;
     NewName := ""; NewTime := None;
     Extended := ["diff --git a/dir/old.txt b/dir/old.txt"; "deleted file mode 100644"];
     Hunks := Some [hunkC] |}.

(** A change of mode only, with nil or with empty hunks. *)
Definition modeChange {ext : Collaborators} (hunks : option (list Hunk)) : FileDiff :=
  {| OrigName := "a/run me.sh"; OrigTime := None;
     NewName := "b/run me.sh"; NewTime := None;
     Extended := ["diff --git a/run me.sh b/run me.sh"; "old mode 100644"; "new mode 100755"];
     Hunks := hunks |}.

(** A change of one line. *)
Definition oneLine {ext : Collaborators} : FileDiff :=
  {| OrigName := "a/x.txt"; OrigTime := None;
     NewName := "b/x.txt"; NewTime := None;
     Extended := [];
     Hunks := Some [hunkB] |}.

(** Collaborators to run the printer with: no times, a fixed directory and
    base name, the message of the diff tools, every wide rune printable. *)
#[export] Instance sampleCollaborators : Collaborators := {|
  Time := unit;
  formatTime := fun _ => "";
  Dir := fun _ => "dir";
  Base := fun _ => "old.txt";
  onlyInMessage := fun dir base => "Only in " ++ dir ++ ": " ++ base ++ nl;
  isPrintTable := fun _ => true
|}.

(** ** Further values that the theorems speak of *)

(** The hunk whose body slice holds nothing between its length and its
    capacity. *)
Definition clipped (h : Hunk) : Hunk :=
  {| OrigStartLine := OrigStartLine h; OrigLines := OrigLines h;
     OrigNoNewlineAt := OrigNoNewlineAt h;
     NewStartLine := NewStartLine h; NewLines := NewLines h;
     Section := Section h;
     Body := {| elems := elems (Body h); spare := [] |} |}.

(** What printing one hunk comes to: its rendering, or the panic of a mark
    beyond the body. *)
Definition renderChecked (h : Hunk) : result bytes :=
  if Nat.leb (N.to_nat (OrigNoNewlineAt h)) (len (Body h)) then Ok (renderHunk h)
  else Panic.

(** The mark of the hunk lies beyond its body. *)
Definition markBeyondBody (h : Hunk) : Prop :=
  len (Body h) < N.to_nat (OrigNoNewlineAt h).

(** An ASCII control character: below the space, or the delete. *)
Definition isControl (c : ascii) : bool :=
  (N_of_ascii c <? 0x20)%N || (N_of_ascii c =? 0x7F)%N.

Fixpoint noControl (s : string) : bool :=
  match s with
  | EmptyString => true
  | String c s' => negb (isControl c) && noControl s'
  end.

(** An extended header line as it is written with quoted names, without
    its newline. *)
Definition quotedXheader {ext : Collaborators} (origName newName xheader : string) : string :=
  if HasPrefix xheader "diff --git" then
    "diff --git " ++ quote origName ++ " " ++ quote newName
  else if HasPrefix xheader "rename from " then
    "rename from " ++ quote (dropString 12 xheader)
  else if HasPrefix xheader "rename to " then
    "rename to " ++ quote (dropString 10 xheader)
  else xheader.

(** The file diff that holds the names and the extended header lines of
    [d] as they are written with quoted names. *)
Definition requoted {ext : Collaborators} (d : FileDiff) : FileDiff :=
  {| OrigName := quote (OrigName d); OrigTime := OrigTime d;
     NewName := quote (NewName d); NewTime := NewTime d;
     Extended := map (quotedXheader (OrigName d) (NewName d)) (Extended d);
     Hunks := Hunks d |}.

(** The result of [PrintFileDiff] put together from its parts. *)
Definition fileDiffResult {ext : Collaborators} (d : FileDiff)
    (options : list PrintFileDiffOption) : result bytes :=
  let headers := extendedHeaders options (OrigName d) (NewName d) (Extended d) in
  if String.eqb (NewName d) "" then
    Ok (headers ++ bytes_of (onlyInMessage (Dir (OrigName d)) (Base (OrigName d))))%list
  else
    match Hunks d with
    | None => Ok headers
    | Some hunks =>
        match PrintHunks hunks with
        | Ok ph =>
            Ok (headers
                ++ bytes_of (fileHeaderLine "--- " (OrigName d) (OrigTime d)
                               (quoteNames (getOptions options)))
                ++ bytes_of (fileHeaderLine "+++ " (NewName d) (NewTime d)
                               (quoteNames (getOptions options)))
                ++ ph)%list
        | Panic => Panic
        end
    end.

(** A hunk whose body slice has four bytes of an earlier use left in its
    backing array, marked at the end of the body. *)
Definition hunkE : Hunk :=
  {| OrigStartLine := 3; OrigLines := 1; OrigNoNewlineAt := 3;
     NewStartLine := 3; NewLines := 0; Section := "";
     Body := {| elems := bytes_of ("-a" ++ nl); spare := bytes_of "junk" |} |}.

(** The same body marked within its capacity and beyond its length. *)
Definition hunkF : Hunk :=
  {| OrigStartLine := 3; OrigLines := 1; OrigNoNewlineAt := 5;
     NewStartLine := 3; NewLines := 0; Section := "";
     Body := {| elems := bytes_of ("-a" ++ nl); spare := bytes_of "junk" |} |}.

(** A renamed file whose names need quoting, with one hunk. *)
Definition renamed {ext : Collaborators} (hunks : list Hunk) : FileDiff :=
  {| OrigName := "a/old name"; OrigTime := None;
     NewName := "b/new name"; NewTime := None;
     Extended := ["diff --git a/old name b/new name"; "similarity index 90%";
                  "rename from old name"; "rename to new name"];
     Hunks := Some hunks |}.

(** A hunk with an empty body. *)
Definition hunkG : Hunk :=
  {| OrigStartLine := 1; OrigLines := 0; OrigNoNewlineAt := 0;
     NewStartLine := 1; NewLines := 0; Section := "";
     Body := {| elems := []; spare := [] |} |}.

(** ** The writer: what a computation appends *)

Lemma bytes_of_app (a b : string) :
  bytes_of (a ++ b) = (bytes_of a ++ bytes_of b)%list.
Proof.
  unfold bytes_of, list_byte_of_string.
  induction a as [|c a IH]; simpl; [reflexivity|].
  now rewrite IH.
Qed.

Lemma writes_ret : writes (ret tt) [].
Proof. intros buf. unfold ret. now rewrite app_nil_r. Qed.

Lemma writes_Write (p : bytes) : writes (Write p) p.
Proof. intros buf. reflexivity. Qed.

Lemma writes_Fprint (s : string) : writes (Fprint s) (bytes_of s).
Proof. apply writes_Write. Qed.

Lemma writes_Fprintln (s : string) : writes (Fprintln s) (bytes_of (s ++ nl)).
Proof. apply writes_Write. Qed.

Lemma writes_bind (m k : Writer unit) (a b : bytes) :
  writes m a -> writes k b -> writes (m ;; k) (a ++ b)%list.
Proof.
  intros Hm Hk buf. unfold bind. rewrite Hm, Hk. now rewrite app_assoc.
Qed.

Lemma writes_eval {A : Type} (r : result A) (a : A) (k : A -> Writer unit) (out : bytes) :
  r = Ok a -> writes (k a) out -> writes (x <- eval r ;; k x) out.
Proof.
  intros -> Hk buf. unfold bind, eval. apply Hk.
Qed.

Lemma writes_forEach {A : Type} (f : A -> Writer unit) (g : A -> bytes) (l : list A) :
  (forall x, In x l -> writes (f x) (g x)) ->
  writes (forEach l f) (List.concat (map g l)).
Proof.
  induction l as [|x l IH]; intros H; simpl.
  - apply writes_ret.
  - apply writes_bind.
    + apply H. now left.
    + apply IH. intros y Hy. apply H. now right.
Qed.

Lemma Bytes_writes (m : Writer unit) (out : bytes) :
  writes m out -> Bytes m = Ok out.
Proof. intros H. unfold Bytes. now rewrite H. Qed.

Lemma writes_ext (m : Writer unit) (a b : bytes) :
  writes m a -> a = b -> writes m b.
Proof. now intros H <-. Qed.

Create HintDb writes.
#[local] Hint Resolve writes_ret writes_Write writes_Fprint writes_Fprintln
  writes_bind : writes.

(** Runs a computation through its writes; what is left to prove is that
    what was written is what was stated. *)
Ltac run_writes := eapply writes_ext; [solve [eauto 12 with writes] |].

(** Marks that are offsets into the bodies of sample hunks. *)
Ltac in_range := repeat constructor; unfold offsetInBody, len; simpl; lia.

(** A panic in one turn of a loop is a panic of the loop. *)
Lemma forEach_panic {A : Type} (f : A -> Writer unit) (l : list A) (x : A) :
  In x l -> (forall buf, f x buf = Panic) ->
  forall buf, forEach l f buf = Panic.
Proof.
  induction l as [|y l IH]; intros Hin Hx buf; [destruct Hin|].
  simpl. unfold bind. destruct Hin as [<-|Hin].
  - now rewrite Hx.
  - destruct (f y buf) as [[[] buf']|]; [|reflexivity].
    now apply IH.
Qed.

(** ** The file diff printer *)

Section PrinterTheorems.

Context {ext : Collaborators}.

Lemma writes_xheader (opts : PrintFileDiffOptions) (d : FileDiff) (xheader : string) :
  writes (if quoteNames opts then printQuotedXheader d xheader else Fprintln xheader)
         (bytes_of (xheaderLine (quoteNames opts) (OrigName d) (NewName d) xheader)).
Proof.
  unfold xheaderLine, printQuotedXheader.
  destruct (quoteNames opts); [|auto with writes].
  repeat match goal with
         | |- context [if HasPrefix ?s ?p then _ else _] => destruct (HasPrefix s p)
         end; auto with writes.
Qed.

Lemma writes_extended (d : FileDiff) (options : list PrintFileDiffOption) :
  writes (forEach (Extended d) (fun xheader =>
            if quoteNames (getOptions options) then printQuotedXheader d xheader
            else Fprintln xheader))
         (extendedHeaders options (OrigName d) (NewName d) (Extended d)).
Proof.
  unfold extendedHeaders. apply writes_forEach.
  intros xheader _. apply writes_xheader.
Qed.

Lemma writes_printFileHeader (prefix filename : string) (timestamp : option Time) (q : bool) :
  writes (printFileHeader prefix filename timestamp q)
         (bytes_of (fileHeaderLine prefix filename timestamp q)).
Proof.
  unfold printFileHeader, fileHeaderLine.
  destruct timestamp as [t|]; run_writes;
    rewrite !bytes_of_app; now rewrite <- ?app_assoc.
Qed.

#[local] Hint Resolve writes_extended writes_printFileHeader : writes.

(** C3: when [NewName] is empty, [PrintFileDiff] writes the extended header
    lines and then the one only-in message made of [Dir] and [Base] of
    [OrigName], and nothing else: no file header line and no hunk, whatever
    the hunks and the times of the file diff are. *)
Theorem PrintFileDiff_single_sided (d : FileDiff) (options : list PrintFileDiffOption) :
  NewName d = "" ->
  PrintFileDiff d options =
  Ok (extendedHeaders options (OrigName d) "" (Extended d)
      ++ bytes_of (onlyInMessage (Dir (OrigName d)) (Base (OrigName d))))%list.
Proof.
  intros Hnew. unfold PrintFileDiff.
  apply Bytes_writes.
  apply writes_bind.
  - rewrite <- Hnew. apply writes_extended.
  - rewrite Hnew. simpl. apply writes_Fprint.
Qed.

(** C8: with a non-empty [NewName] and nil [Hunks], [PrintFileDiff] stops
    after the extended header lines; with [Hunks] present and empty it goes
    on to write the two file header lines. *)
Theorem PrintFileDiff_nil_hunks (d : FileDiff) (options : list PrintFileDiffOption) :
  NewName d <> "" ->
  (Hunks d = None ->
   PrintFileDiff d options =
   Ok (extendedHeaders options (OrigName d) (NewName d) (Extended d)))
  /\
  (Hunks d = Some [] ->
   PrintFileDiff d options =
   Ok (extendedHeaders options (OrigName d) (NewName d) (Extended d)
       ++ bytes_of (fileHeaderLine "--- " (OrigName d) (OrigTime d)
                      (quoteNames (getOptions options)))
       ++ bytes_of (fileHeaderLine "+++ " (NewName d) (NewTime d)
                      (quoteNames (getOptions options))))%list).
Proof.
  intros Hnew. apply String.eqb_neq in Hnew.
  split; intros Hh; unfold PrintFileDiff; rewrite Hnew, Hh; apply Bytes_writes.
  - run_writes. apply app_nil_r.
  - eapply writes_ext.
    + apply writes_bind; [apply writes_extended|].
      apply writes_bind; [apply writes_printFileHeader|].
      apply writes_bind; [apply writes_printFileHeader|].
      apply (writes_eval _ []); [reflexivity | apply writes_Write].
    + now rewrite app_nil_r.
Qed.

(** With a new name and hunks, [PrintFileDiff] writes the extended header
    lines, the two file header lines and what [PrintHunks] returns, and
    panics when [PrintHunks] does. *)
Theorem PrintFileDiff_with_hunks (d : FileDiff) (options : list PrintFileDiffOption)
    (hunks : list Hunk) :
  NewName d <> "" ->
  Hunks d = Some hunks ->
  PrintFileDiff d options =
  match PrintHunks hunks with
  | Ok ph =>
      Ok (extendedHeaders options (OrigName d) (NewName d) (Extended d)
          ++ bytes_of (fileHeaderLine "--- " (OrigName d) (OrigTime d)
                         (quoteNames (getOptions options)))
          ++ bytes_of (fileHeaderLine "+++ " (NewName d) (NewTime d)
                         (quoteNames (getOptions options)))
          ++ ph)%list
  | Panic => Panic
  end.
Proof.
  intros Hnew Hh. apply String.eqb_neq in Hnew.
  unfold PrintFileDiff. rewrite Hnew, Hh. unfold Bytes, bind.
  rewrite writes_extended, !writes_printFileHeader.
  unfold eval, Write. destruct (PrintHunks hunks) as [ph|]; [|reflexivity].
  simpl. now rewrite <- !app_assoc.
Qed.

(** [printFileHeader] writes one line: the prefix, the name, quoted when
    quoting is asked for, a tab and the time when there is one, a newline. *)
Theorem printFileHeader_line (prefix filename : string) (timestamp : option Time)
    (quoteName : bool) :
  Bytes (printFileHeader prefix filename timestamp quoteName) =
  Ok (bytes_of (prefix ++ (if quoteName then quote filename else filename)
                ++ match timestamp with
                   | Some t => String "009"%char (formatTime t)
                   | None => ""
                   end
                ++ nl)).
Proof.
  apply Bytes_writes. eapply writes_ext; [apply writes_printFileHeader|].
  unfold fileHeaderLine. now destruct timestamp.
Qed.

Lemma forEach_files (options : list PrintFileDiffOption) (ds : list FileDiff) (buf : bytes) :
  forEach ds (fun d => diff <- eval (PrintFileDiff d options) ;; Write diff) buf =
  match concatResults (map (fun d => PrintFileDiff d options) ds) with
  | Ok out => Ok (tt, (buf ++ out)%list)
  | Panic => Panic
  end.
Proof.
  revert buf. induction ds as [|d ds IH]; intros buf; simpl.
  - unfold ret. now rewrite app_nil_r.
  - unfold bind at 1. unfold bind at 1. unfold eval.
    destruct (PrintFileDiff d options) as [a|]; [|reflexivity].
    unfold Write. rewrite IH.
    destruct (concatResults _) as [b|]; [|reflexivity].
    now rewrite app_assoc.
Qed.

(** C9: [PrintMultiFileDiff] returns the concatenation, in the order of the
    input, of what [PrintFileDiff] returns for each file diff with the same
    options, with nothing between them (and panics when one of them does). *)
Theorem PrintMultiFileDiff_concat (ds : list FileDiff) (options : list PrintFileDiffOption) :
  PrintMultiFileDiff ds options =
  concatResults (map (fun d => PrintFileDiff d options) ds).
Proof.
  unfold PrintMultiFileDiff, Bytes. rewrite forEach_files.
  now destruct (concatResults _).
Qed.

(** ** Quoting *)

Lemma append_assoc (a b c : string) : (a ++ b) ++ c = a ++ (b ++ c).
Proof. induction a as [|x a IH]; simpl; [reflexivity | now rewrite IH]. Qed.

Lemma append_nil_r (a : string) : a ++ "" = a.
Proof. induction a as [|x a IH]; simpl; [reflexivity | now rewrite IH]. Qed.

Lemma append_length (a b : string) :
  String.length (a ++ b) = String.length a + String.length b.
Proof. induction a as [|x a IH]; simpl; [reflexivity | now rewrite IH]. Qed.

Lemma appendEscapedRune_ascii (c : ascii) :
  (N_of_ascii c <? 0x80)%N = true ->
  appendEscapedRune (N_of_ascii c) = escapeASCII c.
Proof.
  destruct c as [b0 b1 b2 b3 b4 b5 b6 b7].
  destruct b7; [intros H; vm_compute in H; destruct b0, b1, b2, b3, b4, b5, b6; discriminate H|].
  intros _.
  destruct b0, b1, b2, b3, b4, b5, b6; reflexivity.
Qed.

Lemma quoteRunes_ascii (s : string) :
  isASCII s = true -> quoteRunes 0 s = escapeAll s.
Proof.
  induction s as [|c s IH]; simpl; [reflexivity|].
  intros H. apply andb_true_iff in H as [Hc Hs].
  rewrite Hc. simpl.
  assert (Hne : (N_of_ascii c =? RuneError)%N = false).
  { apply N.eqb_neq. apply N.ltb_lt in Hc. unfold RuneError. lia. }
  rewrite Hne, appendEscapedRune_ascii by exact Hc.
  now rewrite IH.
Qed.

(** The decoder with the escapes of Go literals undoes the quoting of one
    ASCII character. *)
Lemma decodeFrom_escapeASCII (c : ascii) (acc tail : string) :
  (N_of_ascii c <? 0x80)%N = true ->
  decodeFrom literalEscapes 0 acc (escapeASCII c ++ tail) =
  decodeFrom literalEscapes 0 (acc ++ String c "") tail.
Proof.
  destruct c as [b0 b1 b2 b3 b4 b5 b6 b7].
  destruct b7; [intros H; vm_compute in H; destruct b0, b1, b2, b3, b4, b5, b6; discriminate H|].
  intros _.
  destruct b0, b1, b2, b3, b4, b5, b6; reflexivity.
Qed.

Lemma decodeFrom_escapeAll (s acc rest : string) :
  isASCII s = true ->
  decodeFrom literalEscapes 0 acc (escapeAll s ++ String DQ rest) = Token (acc ++ s) rest.
Proof.
  revert acc. induction s as [|c s IH]; intros acc H; simpl.
  - now rewrite append_nil_r.
  - apply andb_true_iff in H as [Hc Hs].
    rewrite append_assoc, decodeFrom_escapeASCII by exact Hc.
    rewrite IH by exact Hs. now rewrite append_assoc.
Qed.

Lemma quoteRunes_skip (u s : string) :
  quoteRunes (String.length u) (u ++ s) = quoteRunes 0 s.
Proof. induction u as [|c u IH]; simpl; [reflexivity | exact IH]. Qed.

Lemma firstInfo_wide (s0 : N) (sz : nat) (lo hi : N) :
  firstInfo s0 = Some (sz, lo, hi) ->
  (0x80 <=? lo)%N = true /\ (sz = 2 \/ sz = 3 \/ sz = 4).
Proof.
  unfold firstInfo.
  repeat match goal with
         | |- context [if ?b then _ else _] => destruct b
         end; intros [= <- <- <-] || discriminate; split; auto.
Qed.

Lemma wide_byte (lo b : N) :
  (0x80 <=? lo)%N = true -> (b <? lo)%N = false -> (0x80 <=? b)%N = true.
Proof.
  rewrite N.leb_le, N.ltb_ge, N.leb_le. lia.
Qed.

(** A rune that starts above ASCII takes bytes above ASCII only. *)
Lemma DecodeRuneInString_wide (c0 : ascii) (rest : string) :
  (N_of_ascii c0 <? 0x80)%N = false ->
  exists u s', rest = u ++ s'
               /\ String.length u = snd (DecodeRuneInString (String c0 rest)) - 1
               /\ allWide u = true.
Proof.
  intros Hc0.
  assert (Hnone : exists u s', rest = u ++ s' /\ String.length u = 1 - 1 /\ allWide u = true)
    by (exists "", rest; repeat split).
  assert (H80 : (0x80 <=? 0x80)%N = true) by reflexivity.
  unfold DecodeRuneInString. rewrite Hc0.
  destruct (firstInfo (N_of_ascii c0)) as [[[sz lo] hi]|] eqn:Ef; [|exact Hnone].
  destruct (firstInfo_wide _ _ _ _ Ef) as [Hlo Hsz].
  destruct (Nat.ltb (String.length (String c0 rest)) sz) eqn:Hlen; [exact Hnone|].
  apply Nat.ltb_ge in Hlen. simpl in Hlen.
  destruct ((byteAt 1 (String c0 rest) <? lo)%N) eqn:H1; [exact Hnone|].
  simpl orb. destruct ((hi <? byteAt 1 (String c0 rest))%N); [exact Hnone|].
  destruct rest as [|c1 rest]; [destruct Hsz as [->|[->| ->]]; simpl in Hlen; lia|].
  assert (W1 : (0x80 <=? N_of_ascii c1)%N = true) by exact (wide_byte _ _ Hlo H1).
  destruct (Nat.leb sz 2) eqn:L2.
  { exists (String c1 ""), rest. simpl. now rewrite W1. }
  apply Nat.leb_gt in L2.
  destruct ((byteAt 2 (String c0 (String c1 rest)) <? 0x80)%N) eqn:H2; [exact Hnone|].
  simpl orb. destruct ((0xBF <? byteAt 2 (String c0 (String c1 rest)))%N); [exact Hnone|].
  destruct rest as [|c2 rest]; [simpl in Hlen; lia|].
  assert (W2 : (0x80 <=? N_of_ascii c2)%N = true) by exact (wide_byte _ _ H80 H2).
  destruct (Nat.leb sz 3) eqn:L3.
  { exists (String c1 (String c2 "")), rest. simpl. now rewrite W1, W2. }
  apply Nat.leb_gt in L3.
  destruct ((byteAt 3 (String c0 (String c1 (String c2 rest))) <? 0x80)%N) eqn:H3;
    [exact Hnone|].
  simpl orb.
  destruct ((0xBF <? byteAt 3 (String c0 (String c1 (String c2 rest))))%N); [exact Hnone|].
  destruct rest as [|c3 rest]; [simpl in Hlen; lia|].
  assert (W3 : (0x80 <=? N_of_ascii c3)%N = true) by exact (wide_byte _ _ H80 H3).
  exists (String c1 (String c2 (String c3 ""))), rest. simpl. now rewrite W1, W2, W3.
Qed.

Lemma quoteRunes_step (c0 : ascii) (rest : string) :
  quoteRunes 0 (String c0 rest) =
  (let (r, width) :=
     if (N_of_ascii c0 <? 0x80)%N then (N_of_ascii c0, 1)
     else DecodeRuneInString (String c0 rest) in
   (if Nat.eqb width 1 && (r =? RuneError)%N
    then "\x" ++ hexDigits 2 (N_of_ascii c0)
    else appendEscapedRune r)
   ++ quoteRunes (width - 1) rest).
Proof. reflexivity. Qed.

(** The quoting escapes every ASCII byte of any text. *)
Lemma quoteRunes_QuotedAs (s : string) : QuotedAs s (quoteRunes 0 s).
Proof.
  remember (String.length s) as n eqn:Hn.
  revert s Hn. induction n as [n IH] using lt_wf_ind. intros s Hn.
  destruct s as [|c0 rest]; [constructor|].
  rewrite quoteRunes_step. destruct (N_of_ascii c0 <? 0x80)%N eqn:Hc0.
  - assert (Hne : (N_of_ascii c0 =? RuneError)%N = false).
    { apply N.eqb_neq. apply N.ltb_lt in Hc0. unfold RuneError. lia. }
    rewrite Hne, appendEscapedRune_ascii by exact Hc0. simpl.
    apply quoted_ascii; [exact Hc0|].
    apply (IH (String.length rest)); [subst n; simpl; lia | reflexivity].
  - destruct (DecodeRuneInString_wide c0 rest Hc0) as [u [s' [-> [Hlen Hw]]]].
    destruct (DecodeRuneInString (String c0 (u ++ s'))) as [r width].
    simpl in Hlen. rewrite <- Hlen, quoteRunes_skip.
    apply (quoted_wide (String c0 u) _ s').
    + discriminate.
    + simpl. rewrite Hw, andb_true_r. apply N.leb_le. apply N.ltb_ge in Hc0. exact Hc0.
    + apply (IH (String.length s')); [|reflexivity].
      subst n. simpl. rewrite append_length. lia.
Qed.

(** C7: [quote] returns [/dev/null] and any text that starts with a double
    quote as they are; any other text it returns in double quotes as [%q]
    writes it, every quote and backslash behind a backslash, every control
    character as an escape, every printable ASCII character as it stands.
    For ASCII text the decoder, with the escapes of Go literals, reads the
    quoted text back as the text itself. *)
Theorem quote_cases :
  quote "/dev/null" = "/dev/null"
  /\ (forall in_, HasPrefix in_ (String DQ "") = true -> quote in_ = in_)
  /\ (forall in_, in_ <> "/dev/null" -> HasPrefix in_ (String DQ "") = false ->
      (exists out, quote in_ = String DQ (out ++ String DQ "") /\ QuotedAs in_ out)
      /\ (isASCII in_ = true ->
          quote in_ = String DQ (escapeAll in_ ++ String DQ "")
          /\ forall rest,
               readQuotedFilename literalEscapes (quote in_ ++ rest) = Token in_ rest)).
Proof.
  split; [reflexivity|]. split.
  - intros in_ Hq. unfold quote. rewrite Hq. simpl.
    now destruct (String.eqb in_ "/dev/null").
  - intros in_ Hdev Hq.
    assert (E : quote in_ = String DQ (quoteRunes 0 in_ ++ String DQ "")).
    { unfold quote. apply String.eqb_neq in Hdev. now rewrite Hdev, Hq. }
    split; [exists (quoteRunes 0 in_); split; [exact E | apply quoteRunes_QuotedAs]|].
    intros Hascii. rewrite E, quoteRunes_ascii by exact Hascii.
    split; [reflexivity|].
    intros rest. simpl. rewrite append_assoc. simpl.
    now rewrite decodeFrom_escapeAll.
Qed.

End PrinterTheorems.


(** ** The hunk printer *)

Local Open Scope list_scope.

Lemma slice_hi_in_body (b : ByteSlice) (n : nat) :
  n <= len b -> slice_hi b n = Ok (firstn n (elems b)).
Proof.
  intros H. unfold slice_hi, cap. unfold len in H.
  replace (Nat.leb n _) with true by (symmetry; apply Nat.leb_le; lia).
  now rewrite firstn_app, (proj2 (Nat.sub_0_le _ _) H), firstn_O, app_nil_r.
Qed.

Lemma slice_lo_in_body (b : ByteSlice) (n : nat) :
  n <= len b -> slice_lo b n = Ok (skipn n (elems b)).
Proof.
  intros H. unfold slice_lo.
  now replace (Nat.leb n _) with true by (symmetry; apply Nat.leb_le; lia).
Qed.

Lemma slice_lo_out_of_range (b : ByteSlice) (n : nat) :
  len b < n -> slice_lo b n = Panic.
Proof.
  intros H. unfold slice_lo.
  now replace (Nat.leb n _) with false by (symmetry; apply Nat.leb_gt; lia).
Qed.

Lemma writes_printNoNewlineMessage : writes printNoNewlineMessage markerLine.
Proof.
  unfold printNoNewlineMessage, markerLine. rewrite bytes_of_app.
  apply writes_bind; [apply writes_Write | apply writes_Fprintln].
Qed.

Lemma writes_body (h : Hunk) :
  offsetInBody h ->
  writes (if N.eqb (OrigNoNewlineAt h) 0 then Write (elems (Body h))
          else
            p <- eval (slice_hi (Body h) (N.to_nat (OrigNoNewlineAt h))) ;;
            Write p ;;
            printNoNewlineMessage ;;
            q <- eval (slice_lo (Body h) (N.to_nat (OrigNoNewlineAt h))) ;;
            Write q)
         (bodyWithMarker h).
Proof.
  intros Hin. unfold bodyWithMarker.
  destruct (N.eqb (OrigNoNewlineAt h) 0); [apply writes_Write|].
  eapply writes_eval; [now apply slice_hi_in_body|].
  apply writes_bind; [apply writes_Write|].
  apply writes_bind; [apply writes_printNoNewlineMessage|].
  eapply writes_eval; [now apply slice_lo_in_body | apply writes_Write].
Qed.

Lemma writes_trailing (h : Hunk) :
  writes (if negb (HasSuffix (elems (Body h)) [LFb]) then
            Fprintln "" ;; printNoNewlineMessage
          else ret tt)
         (trailingMarker h).
Proof.
  unfold trailingMarker.
  destruct (HasSuffix (elems (Body h)) [LFb]); simpl; [apply writes_ret|].
  apply (writes_bind _ _ [LFb] markerLine);
    [apply writes_Fprintln | apply writes_printNoNewlineMessage].
Qed.

#[local] Hint Resolve writes_printNoNewlineMessage writes_body writes_trailing : writes.

Lemma writes_printHunk (h : Hunk) :
  offsetInBody h -> writes (printHunk h) (renderHunk h).
Proof.
  intros Hin. unfold printHunk, renderHunk, rangeHeader.
  destruct (String.eqb (Section h) ""); run_writes;
    rewrite ?bytes_of_app, <- ?app_assoc; reflexivity.
Qed.

Lemma PrintHunks_in_range (hunks : list Hunk) :
  Forall offsetInBody hunks ->
  PrintHunks hunks = Ok (List.concat (map renderHunk hunks)).
Proof.
  intros Hall. unfold PrintHunks. apply Bytes_writes.
  apply writes_forEach. intros h Hh.
  apply writes_printHunk. rewrite Forall_forall in Hall. now apply Hall.
Qed.

(** C1: for hunks whose [OrigNoNewlineAt] is an offset into the body,
    [PrintHunks] writes for each hunk the range header line (with a space
    and the section text exactly when the section is not empty, then a
    newline), then the body, split at [OrigNoNewlineAt] around the marker
    line when that offset is not zero, then the trailing marker that a body
    without a final newline gets; and the output for a list of hunks is the
    concatenation of these renderings with nothing between them. *)
Theorem PrintHunks_renders (hunks : list Hunk) :
  Forall offsetInBody hunks ->
  (forall h, In h hunks ->
     PrintHunks [h] =
     Ok (bytes_of ("@@ -" ++ itoa (OrigStartLine h) ++ "," ++ itoa (OrigLines h)
                   ++ " +" ++ itoa (NewStartLine h) ++ "," ++ itoa (NewLines h) ++ " @@"
                   ++ (if String.eqb (Section h) "" then "" else " " ++ Section h)
                   ++ nl)
         ++ (if N.eqb (OrigNoNewlineAt h) 0 then elems (Body h)
             else firstn (N.to_nat (OrigNoNewlineAt h)) (elems (Body h))
                  ++ markerLine
                  ++ skipn (N.to_nat (OrigNoNewlineAt h)) (elems (Body h)))
         ++ trailingMarker h))
  /\ PrintHunks hunks = Ok (List.concat (map renderHunk hunks)).
Proof.
  intros Hall. split; [|now apply PrintHunks_in_range].
  intros h Hh. rewrite Forall_forall in Hall.
  rewrite PrintHunks_in_range by (constructor; [now apply Hall | constructor]).
  simpl. now rewrite app_nil_r.
Qed.

Lemma PrintHunks_renders_witness :
  Forall offsetInBody [hunkA; hunkB]
  /\ PrintHunks [hunkA; hunkB] =
     Ok (bytes_of ("@@ -1,2 +1,2 @@ func main()" ++ nl
                   ++ "-a" ++ nl ++ "+b" ++ nl ++ " c" ++ nl
                   ++ "@@ -7,1 +7,1 @@" ++ nl
                   ++ "-a" ++ nl ++ "\ No newline at end of file" ++ nl
                   ++ "+b" ++ nl ++ "\ No newline at end of file" ++ nl)).
Proof.
  assert (H : Forall offsetInBody [hunkA; hunkB])
    by in_range.
  split; [exact H|].
  exact (proj2 (PrintHunks_renders [hunkA; hunkB] H)).
Defined.

Lemma HasSuffix_snoc (pre : bytes) (c d : byte) :
  HasSuffix (pre ++ [c]) [d] = Byte.eqb c d.
Proof.
  unfold HasSuffix. rewrite length_app.
  change (List.length [c]) with 1. change (List.length [d]) with 1.
  replace (Nat.leb 1 (List.length pre + 1)) with true
    by (symmetry; apply Nat.leb_le; lia).
  replace (List.length pre + 1 - 1) with (List.length pre + 0) by lia.
  rewrite skipn_app, Nat.add_0_r, skipn_all, Nat.sub_diag. simpl.
  now rewrite andb_true_r.
Qed.

Lemma markerLine_ends_with_newline :
  exists pre, markerLine = (pre ++ [LFb])%list.
Proof.
  unfold markerLine. rewrite bytes_of_app. now exists (bytes_of noNewlineMessage).
Qed.

Lemma snoc_inj (a b : bytes) (x y : byte) :
  (a ++ [x])%list = (b ++ [y])%list -> x = y.
Proof.
  intros H. apply (f_equal (@rev byte)) in H.
  rewrite !rev_app_distr in H. simpl in H. now inversion H.
Qed.

(** C2, as amended: for a last hunk whose body does not end with a newline
    (every mark being an offset into its body), the output ends with an
    inserted newline and the marker line, written after the body; when the
    mark is not zero and lies before the end of the body, what the inserted
    newline follows is a byte of the body and not the marker line written at
    the mark; when the mark is the length of the body, the marker line
    written at the mark is what the inserted newline and the second marker
    line follow. *)
Theorem PrintHunks_trailing_marker (hunks : list Hunk) (h : Hunk) :
  Forall offsetInBody (hunks ++ [h]) ->
  HasSuffix (elems (Body h)) [LFb] = false ->
  PrintHunks (hunks ++ [h]) =
  Ok (List.concat (map renderHunk hunks)
      ++ bytes_of (rangeHeader h) ++ bodyWithMarker h ++ LFb :: markerLine)%list
  /\ (OrigNoNewlineAt h <> 0%N ->
      N.to_nat (OrigNoNewlineAt h) < len (Body h) ->
      forall pre, bodyWithMarker h <> (pre ++ markerLine)%list)
  /\ (OrigNoNewlineAt h <> 0%N ->
      N.to_nat (OrigNoNewlineAt h) = len (Body h) ->
      bodyWithMarker h = (elems (Body h) ++ markerLine)%list).
Proof.
  intros Hall Hs. split; [|split].
  - rewrite (PrintHunks_in_range _ Hall).
    rewrite map_app, concat_app. simpl. rewrite app_nil_r.
    unfold renderHunk, trailingMarker. now rewrite Hs.
  - intros Hnz Hlt pre Heq.
    unfold bodyWithMarker in Heq.
    apply N.eqb_neq in Hnz. rewrite Hnz in Heq.
    assert (Hne : skipn (N.to_nat (OrigNoNewlineAt h)) (elems (Body h)) <> []).
    { intros E. apply (f_equal (@List.length byte)) in E.
      rewrite length_skipn in E. unfold len in Hlt. simpl in E. lia. }
    destruct (exists_last Hne) as [tl [c Htl]].
    assert (Hc : c <> LFb).
    { intros ->.
      rewrite <- (firstn_skipn (N.to_nat (OrigNoNewlineAt h)) (elems (Body h))) in Hs.
      rewrite Htl, app_assoc, HasSuffix_snoc in Hs. discriminate Hs. }
    destruct markerLine_ends_with_newline as [m Hm].
    rewrite Htl in Heq. rewrite Hm in Heq at 2.
    rewrite !app_assoc in Heq. apply snoc_inj in Heq. contradiction.
  - intros Hnz Heq. unfold bodyWithMarker.
    apply N.eqb_neq in Hnz. rewrite Hnz, Heq. unfold len.
    now rewrite firstn_all, skipn_all, app_nil_r.
Qed.

Lemma PrintHunks_trailing_marker_witness :
  Forall offsetInBody ([hunkA] ++ [hunkB])
  /\ HasSuffix (elems (Body hunkB)) [LFb] = false
  /\ OrigNoNewlineAt hunkB <> 0%N
  /\ N.to_nat (OrigNoNewlineAt hunkB) < len (Body hunkB)
  /\ PrintHunks ([hunkA] ++ [hunkB]) =
     Ok (List.concat (map renderHunk [hunkA])
         ++ bytes_of (rangeHeader hunkB) ++ bodyWithMarker hunkB ++ LFb :: markerLine)%list
  /\ forall pre, bodyWithMarker hunkB <> (pre ++ markerLine)%list.
Proof.
  assert (H : Forall offsetInBody ([hunkA] ++ [hunkB])) by in_range.
  assert (Hs : HasSuffix (elems (Body hunkB)) [LFb] = false) by reflexivity.
  assert (Hnz : OrigNoNewlineAt hunkB <> 0%N) by discriminate.
  assert (Hlt : N.to_nat (OrigNoNewlineAt hunkB) < len (Body hunkB))
    by (unfold len; simpl; lia).
  exact (conj H (conj Hs (conj Hnz (conj Hlt
           (conj (proj1 (PrintHunks_trailing_marker [hunkA] hunkB H Hs))
                 (proj1 (proj2 (PrintHunks_trailing_marker [hunkA] hunkB H Hs))
                    Hnz Hlt)))))).
Defined.

(** The claim as first stated fails for [hunkD]: its body does not end with
    a newline and its mark is not zero, and the marker line is written
    twice, at the mark and again after the inserted newline, so that the
    trailing marker does repeat the one written at the mark. *)
Lemma PrintHunks_marker_twice :
  HasSuffix (elems (Body hunkD)) [LFb] = false
  /\ OrigNoNewlineAt hunkD = 2%N
  /\ offsetInBody hunkD
  /\ PrintHunks [hunkD] =
     Ok (bytes_of ("@@ -1,1 +1,0 @@" ++ nl ++ "-a")
         ++ markerLine ++ LFb :: markerLine)%list
  /\ ~ (forall pre, bodyWithMarker hunkD <> pre ++ markerLine).
Proof.
  split; [reflexivity|]. split; [reflexivity|]. split; [in_range|].
  split; [reflexivity|].
  intros Hno. now apply (Hno (bytes_of "-a")).
Qed.

Lemma printHunk_out_of_range (h : Hunk) (buf : bytes) :
  len (Body h) < N.to_nat (OrigNoNewlineAt h) -> printHunk h buf = Panic.
Proof.
  intros Hlt.
  assert (Hnz : N.eqb (OrigNoNewlineAt h) 0 = false) by (apply N.eqb_neq; lia).
  unfold printHunk. rewrite Hnz.
  unfold bind, Fprint, Fprintln, Write, ret, eval, printNoNewlineMessage, bind, Fprintln, Write.
  destruct (String.eqb (Section h) "");
    destruct (slice_hi (Body h) _); try reflexivity;
    now rewrite slice_lo_out_of_range.
Qed.

(** C10: [PrintHunks] slices the body at [OrigNoNewlineAt] unchecked.  When
    every mark is at most the length of its body, both slice expressions
    are in bounds for every hunk and [PrintHunks] returns; a hunk whose mark
    exceeds the length of its body makes the slicing out of range, and
    [PrintHunks] panics. *)
Theorem PrintHunks_slice_bounds (hunks : list Hunk) :
  (Forall offsetInBody hunks ->
   (forall h, In h hunks ->
      slice_hi (Body h) (N.to_nat (OrigNoNewlineAt h)) =
        Ok (firstn (N.to_nat (OrigNoNewlineAt h)) (elems (Body h)))
      /\ slice_lo (Body h) (N.to_nat (OrigNoNewlineAt h)) =
        Ok (skipn (N.to_nat (OrigNoNewlineAt h)) (elems (Body h))))
   /\ exists out, PrintHunks hunks = Ok out)
  /\
  (forall h, In h hunks ->
     len (Body h) < N.to_nat (OrigNoNewlineAt h) ->
     slice_lo (Body h) (N.to_nat (OrigNoNewlineAt h)) = Panic
     /\ PrintHunks hunks = Panic).
Proof.
  split.
  - intros Hall. split.
    + intros h Hh. rewrite Forall_forall in Hall. specialize (Hall h Hh).
      split; [now apply slice_hi_in_body | now apply slice_lo_in_body].
    + eexists. now apply PrintHunks_in_range.
  - intros h Hh Hlt. split; [now apply slice_lo_out_of_range|].
    unfold PrintHunks, Bytes.
    rewrite (forEach_panic printHunk hunks h Hh); [reflexivity|].
    intros buf. now apply printHunk_out_of_range.
Qed.

Lemma PrintHunks_slice_bounds_witness :
  (exists out, PrintHunks [hunkA; hunkB] = Ok out)
  /\ PrintHunks [hunkA; hunkC; hunkB] = Panic.
Proof.
  split.
  - refine (proj2 (proj1 (PrintHunks_slice_bounds [hunkA; hunkB]) _)).
    in_range.
  - refine (proj2 (proj2 (PrintHunks_slice_bounds [hunkA; hunkC; hunkB]) hunkC _ _)).
    + simpl. tauto.
    + unfold len. simpl. lia.
Defined.

(** ** The printer on the sample values *)

Lemma PrintFileDiff_single_sided_witness :
  NewName deletedFile = ""
  /\ PrintFileDiff deletedFile [] =
     Ok (bytes_of ("diff --git a/dir/old.txt b/dir/old.txt" ++ nl
                   ++ "deleted file mode 100644" ++ nl
                   ++ "Only in dir: old.txt" ++ nl)).
Proof.
  split; [reflexivity|].
  exact (PrintFileDiff_single_sided deletedFile [] eq_refl).
Defined.

Lemma PrintFileDiff_with_hunks_witness :
  NewName oneLine <> ""
  /\ Hunks oneLine = Some [hunkB]
  /\ PrintFileDiff oneLine [] =
     Ok (bytes_of ("--- a/x.txt" ++ nl
                   ++ "+++ b/x.txt" ++ nl
                   ++ "@@ -7,1 +7,1 @@" ++ nl
                   ++ "-a" ++ nl ++ "\ No newline at end of file" ++ nl
                   ++ "+b" ++ nl ++ "\ No newline at end of file" ++ nl)).
Proof.
  assert (Hn : NewName oneLine <> "") by discriminate.
  split; [exact Hn|]. split; [reflexivity|].
  exact (PrintFileDiff_with_hunks oneLine [] [hunkB] Hn eq_refl).
Defined.

(** Two file diffs printed together. *)
Lemma PrintMultiFileDiff_sample :
  PrintMultiFileDiff [deletedFile; oneLine] [] =
  Ok (bytes_of ("diff --git a/dir/old.txt b/dir/old.txt" ++ nl
                ++ "deleted file mode 100644" ++ nl
                ++ "Only in dir: old.txt" ++ nl
                ++ "--- a/x.txt" ++ nl
                ++ "+++ b/x.txt" ++ nl
                ++ "@@ -7,1 +7,1 @@" ++ nl
                ++ "-a" ++ nl ++ "\ No newline at end of file" ++ nl
                ++ "+b" ++ nl ++ "\ No newline at end of file" ++ nl)).
Proof. reflexivity. Qed.

Lemma PrintFileDiff_nil_hunks_witness :
  NewName (modeChange None) <> ""
  /\ PrintFileDiff (modeChange None) [WithQuotedNames] =
     Ok (bytes_of (lit "diff --git 'a/run me.sh' 'b/run me.sh'" ++ nl
                   ++ "old mode 100644" ++ nl
                   ++ "new mode 100755" ++ nl))
  /\ PrintFileDiff (modeChange (Some [])) [WithQuotedNames] =
     Ok (bytes_of (lit "diff --git 'a/run me.sh' 'b/run me.sh'" ++ nl
                   ++ "old mode 100644" ++ nl
                   ++ "new mode 100755" ++ nl
                   ++ lit "--- 'a/run me.sh'" ++ nl
                   ++ lit "+++ 'b/run me.sh'" ++ nl)).
Proof.
  assert (Hn : forall hs, NewName (modeChange hs) <> "") by (intros hs; discriminate).
  split; [apply Hn|]. split.
  - exact (proj1 (PrintFileDiff_nil_hunks (modeChange None) [WithQuotedNames] (Hn None))
             eq_refl).
  - exact (proj2 (PrintFileDiff_nil_hunks (modeChange (Some [])) [WithQuotedNames]
                    (Hn (Some []))) eq_refl).
Defined.

Lemma quote_cases_witness :
  quote (lit "'already") = lit "'already"
  /\ (exists out, quote ("a" ++ String "195"%char (String "184"%char (lit "'b")))%string
                  = String DQ (out ++ String DQ "")
                  /\ QuotedAs ("a" ++ String "195"%char (String "184"%char (lit "'b")))%string out)
  /\ quote (lit "a'b\c" ++ nl)%string = lit "'a\'b\\c\n'"
  /\ readQuotedFilename literalEscapes
       (quote (lit "a'b\c" ++ nl) ++ " rest")%string
     = Token (lit "a'b\c" ++ nl)%string " rest".
Proof.
  pose proof quote_cases as [_ [Hq Hother]].
  split; [exact (Hq (lit "'already") eq_refl)|].
  split.
  - assert (Hdev : ("a" ++ String "195"%char (String "184"%char (lit "'b")))%string
                   <> "/dev/null") by discriminate.
    exact (proj1 (Hother _ Hdev eq_refl)).
  - assert (Hdev : (lit "a'b\c" ++ nl)%string <> "/dev/null") by discriminate.
    destruct (Hother (lit "a'b\c" ++ nl)%string Hdev eq_refl) as [_ Hascii].
    destruct (Hascii eq_refl) as [Hform Hback].
    split; [exact Hform | exact (Hback " rest")].
Defined.

(** ** The ordering of extended header lines *)

Local Open Scope string_scope.

Lemma ascii_compare_refl (a : ascii) : Ascii.compare a a = Eq.
Proof. unfold Ascii.compare. apply N.compare_refl. Qed.

Lemma ascii_compare_lt_trans (a b c : ascii) :
  Ascii.compare a b = Lt -> Ascii.compare b c = Lt -> Ascii.compare a c = Lt.
Proof.
  unfold Ascii.compare. rewrite !N.compare_lt_iff. lia.
Qed.

Lemma string_compare_refl (s : string) : String.compare s s = Eq.
Proof.
  induction s as [|c s IH]; simpl; [reflexivity|].
  now rewrite ascii_compare_refl.
Qed.

Lemma string_compare_lt_trans (s t u : string) :
  String.compare s t = Lt -> String.compare t u = Lt -> String.compare s u = Lt.
Proof.
  revert t u. induction s as [|a s IH]; intros [|b t] [|c u]; simpl;
    try discriminate; try reflexivity.
  destruct (Ascii.compare a b) eqn:Eab; try discriminate;
    destruct (Ascii.compare b c) eqn:Ebc; try discriminate; intros H1 H2.
  - apply Ascii.compare_eq_iff in Eab, Ebc. subst.
    rewrite ascii_compare_refl. now apply (IH t).
  - apply Ascii.compare_eq_iff in Eab. subst. now rewrite Ebc.
  - apply Ascii.compare_eq_iff in Ebc. subst. now rewrite Eab.
  - now rewrite (ascii_compare_lt_trans a b c).
Qed.

Lemma ltb_irrefl (s : string) : String.ltb s s = false.
Proof. unfold String.ltb. now rewrite string_compare_refl. Qed.

Lemma ltb_trans (s t u : string) :
  String.ltb s t = true -> String.ltb t u = true -> String.ltb s u = true.
Proof.
  unfold String.ltb.
  destruct (String.compare s t) eqn:E1; try discriminate.
  destruct (String.compare t u) eqn:E2; try discriminate.
  now rewrite (string_compare_lt_trans s t u).
Qed.

Lemma ltb_asym (s t : string) : String.ltb s t = true -> String.ltb t s = false.
Proof.
  unfold String.ltb. rewrite (String.compare_antisym s t).
  now destruct (String.compare t s).
Qed.

(** Not less is transitive: the lexical order is total. *)
Lemma ltb_false_trans (s t u : string) :
  String.ltb s t = false -> String.ltb t u = false -> String.ltb s u = false.
Proof.
  intros H1 H2. destruct (String.ltb s u) eqn:E; [|reflexivity].
  unfold String.ltb in *.
  destruct (String.compare s u) eqn:Esu; try discriminate.
  destruct (String.compare s t) eqn:Est; try discriminate.
  - apply String.compare_eq_iff in Est. subst. now rewrite Esu in H2.
  - destruct (String.compare t u) eqn:Etu; try discriminate.
    + apply String.compare_eq_iff in Etu. subst. now rewrite Esu in Est.
    + rewrite String.compare_antisym in Est, Etu.
      destruct (String.compare t s) eqn:Ets; try discriminate.
      destruct (String.compare u t) eqn:Eut; try discriminate.
      rewrite (String.compare_antisym s u) in Esu.
      now rewrite (string_compare_lt_trans u t s Eut Ets) in Esu.
Qed.

(** [xheadersLessFunc] compares positions first. *)
Lemma less_spec (a b : string) :
  xheadersLessFunc a b = true <->
  lineRank a < lineRank b
  \/ (lineRank a = lineRank b /\ lineRank a = 4 /\ String.ltb a b = true).
Proof.
  unfold xheadersLessFunc.
  destruct (Nat.ltb_spec (lineRank a) (lineRank b)) as [Hlt|Hge].
  - split; [now left | reflexivity].
  - destruct (Nat.ltb_spec (lineRank b) (lineRank a)) as [Hlt'|Hge'].
    + split; [discriminate | intros [H|[H _]]; lia].
    + destruct (Nat.eqb_spec (lineRank a) 4) as [H4|H4].
      * split; [intros H; right; repeat split; [lia | exact H4 | exact H]
               | intros [H|[_ [_ H]]]; [lia | exact H]].
      * split; [discriminate | intros [H|[_ [H _]]]; [lia | contradiction]].
Qed.

Lemma less_false_rank (a b : string) :
  xheadersLessFunc a b = false -> lineRank b <= lineRank a.
Proof.
  intros H. destruct (Nat.le_gt_cases (lineRank b) (lineRank a)) as [|Hlt]; [assumption|].
  assert (xheadersLessFunc a b = true) by (apply less_spec; now left).
  congruence.
Qed.

Lemma less_irrefl (a : string) : xheadersLessFunc a a = false.
Proof.
  destruct (xheadersLessFunc a a) eqn:E; [|reflexivity].
  apply less_spec in E as [H|[_ [_ H]]]; [lia|].
  now rewrite ltb_irrefl in H.
Qed.

Lemma less_trans (a b c : string) :
  xheadersLessFunc a b = true -> xheadersLessFunc b c = true ->
  xheadersLessFunc a c = true.
Proof.
  rewrite !less_spec.
  intros [H1|[E1 [F1 L1]]] [H2|[E2 [F2 L2]]].
  - left. lia.
  - left. lia.
  - left. lia.
  - right. repeat split; [lia | assumption | now apply (ltb_trans a b c)].
Qed.

Lemma less_asym (a b : string) :
  xheadersLessFunc a b = true -> xheadersLessFunc b a = false.
Proof.
  intros H. destruct (xheadersLessFunc b a) eqn:E; [|reflexivity].
  pose proof (less_trans a b a H E) as Haa.
  now rewrite less_irrefl in Haa.
Qed.

Lemma less_false_trans (a b c : string) :
  xheadersLessFunc a b = false -> xheadersLessFunc b c = false ->
  xheadersLessFunc a c = false.
Proof.
  intros H1 H2. destruct (xheadersLessFunc a c) eqn:E; [|reflexivity].
  pose proof (less_false_rank _ _ H1) as R1.
  pose proof (less_false_rank _ _ H2) as R2.
  apply less_spec in E as [Hlt|[Eac [F Lac]]]; [lia|].
  assert (Eb : lineRank b = 4) by lia.
  assert (Lab : String.ltb a b = false).
  { destruct (String.ltb a b) eqn:L; [|reflexivity].
    assert (xheadersLessFunc a b = true) by (apply less_spec; right; repeat split; [lia|assumption|assumption]).
    congruence. }
  assert (Lbc : String.ltb b c = false).
  { destruct (String.ltb b c) eqn:L; [|reflexivity].
    assert (xheadersLessFunc b c = true) by (apply less_spec; right; repeat split; [lia|assumption|assumption]).
    congruence. }
  now rewrite (ltb_false_trans a b c Lab Lbc) in Lac.
Qed.

(** *** Insertion sort with a strict weak order *)

Local Open Scope list_scope.

Section InsertionSort.

Variable A : Type.
Variable less : A -> A -> bool.
Hypothesis less_asymmetric : forall a b, less a b = true -> less b a = false.
Hypothesis less_false_transitive :
  forall a b c, less a b = false -> less b c = false -> less a c = false.

Lemma sink_perm (x : A) (sorted : list A) :
  Permutation (sink less x sorted) (x :: sorted).
Proof.
  induction sorted as [|y sorted IH]; simpl; [apply Permutation_refl|].
  destruct (less x y); [|apply Permutation_refl].
  apply Permutation_trans with (y :: x :: sorted);
    [now apply perm_skip | apply perm_swap].
Qed.

Lemma sink_sorted (x : A) (sorted : list A) :
  StronglySorted (notLess less) sorted -> StronglySorted (notLess less) (sink less x sorted).
Proof.
  induction sorted as [|y sorted IH]; intros Hs; simpl.
  - constructor; constructor.
  - inversion Hs as [|? ? Hs' Hy]; subst.
    destruct (less x y) eqn:E.
    + constructor; [now apply IH|].
      apply (Permutation_Forall (Permutation_sym (sink_perm x sorted))).
      constructor; [now apply less_asymmetric | exact Hy].
    + constructor; [exact Hs|].
      constructor; [exact E|].
      rewrite Forall_forall in Hy |- *. intros z Hz.
      apply (less_false_transitive x y z E). now apply Hy.
Qed.

Lemma fold_sink_sorted (data sorted : list A) :
  StronglySorted (notLess less) sorted ->
  StronglySorted (notLess less) (fold_left (fun s x => sink less x s) data sorted).
Proof.
  revert sorted. induction data as [|x data IH]; intros sorted Hs; simpl;
    [exact Hs | apply IH; now apply sink_sorted].
Qed.

Lemma fold_sink_perm (data sorted : list A) :
  Permutation (fold_left (fun s x => sink less x s) data sorted) (data ++ sorted).
Proof.
  revert sorted. induction data as [|x data IH]; intros sorted; simpl;
    [apply Permutation_refl|].
  apply Permutation_trans with (data ++ sink less x sorted); [apply IH|].
  apply Permutation_trans with (data ++ x :: sorted);
    [apply Permutation_app_head, sink_perm | apply Permutation_sym, Permutation_middle].
Qed.

Lemma sorted_snoc (P : A -> A -> Prop) (l : list A) (x : A) :
  StronglySorted P l -> Forall (fun y => P y x) l -> StronglySorted P (l ++ [x]).
Proof.
  induction 1 as [|y l Hl IH Hy]; intros Hx; simpl.
  - constructor; constructor.
  - inversion Hx; subst. constructor; [now apply IH|].
    apply Forall_app. split; [exact Hy | now constructor].
Qed.

Lemma sorted_rev (l : list A) :
  StronglySorted (notLess less) l ->
  StronglySorted (fun a b => notLess less b a) (rev l).
Proof.
  induction 1 as [|y l Hl IH Hy]; simpl; [constructor|].
  apply sorted_snoc; [exact IH|].
  apply Forall_rev. exact Hy.
Qed.

Lemma sortSlice_perm (data : list A) : Permutation (sortSlice less data) data.
Proof.
  unfold sortSlice.
  apply Permutation_trans with (fold_left (fun s x => sink less x s) data []);
    [apply Permutation_sym, Permutation_rev|].
  rewrite <- (app_nil_r data) at 2. apply fold_sink_perm.
Qed.

Lemma sortSlice_sorted (data : list A) : sortedBy less (sortSlice less data).
Proof.
  unfold sortSlice, sortedBy. apply sorted_rev, fold_sink_sorted. constructor.
Qed.

End InsertionSort.

(** *** Sorted header lines start canonically *)

Lemma sorted_perm_eq (l1 l2 : list nat) :
  StronglySorted le l1 -> StronglySorted le l2 -> Permutation l1 l2 -> l1 = l2.
Proof.
  revert l2. induction l1 as [|a l1 IH]; intros l2 H1 H2 Hp.
  - now apply Permutation_nil in Hp.
  - destruct l2 as [|b l2]; [now apply Permutation_sym, Permutation_nil in Hp|].
    inversion H1 as [|? ? H1' Ha]; inversion H2 as [|? ? H2' Hb]; subst.
    rewrite Forall_forall in Ha, Hb.
    assert (Eab : a = b).
    { assert (Hin1 : In b (a :: l1))
        by (apply (Permutation_in _ (Permutation_sym Hp)); now left).
      assert (Hin2 : In a (b :: l2)) by (apply (Permutation_in _ Hp); now left).
      destruct Hin1 as [|Hin1]; [assumption|].
      destruct Hin2 as [|Hin2]; [now symmetry|].
      specialize (Ha _ Hin1). specialize (Hb _ Hin2). lia. }
    subst b. f_equal. apply IH; try assumption.
    now apply Permutation_cons_inv in Hp.
Qed.

Lemma sorted_ranks (out : list string) :
  sortedBy xheadersLessFunc out -> StronglySorted le (map lineRank out).
Proof.
  unfold sortedBy. induction 1 as [|a l Hl IH Ha]; simpl; constructor; [exact IH|].
  apply Forall_map. rewrite Forall_forall in Ha |- *.
  intros b Hb. apply less_false_rank. now apply Ha.
Qed.

Lemma rank_prefix (line : string) :
  (lineRank line = 0 -> HasPrefix line "diff --git" = true)
  /\ (lineRank line = 1 -> HasPrefix line "old mode" = true)
  /\ (lineRank line = 2 -> HasPrefix line "new mode" = true).
Proof.
  unfold lineRank, classify.
  repeat match goal with
         | |- context [if ?b then _ else _] => destruct b
         end; simpl; repeat split; intros; try reflexivity; discriminate.
Qed.

Lemma canonical_of_sorted (out : list string) :
  Permutation (map classify out) recognizedKinds ->
  sortedBy xheadersLessFunc out ->
  canonicalStart out = true.
Proof.
  intros Hp Hs.
  assert (E : map lineRank out = map rank recognizedKinds).
  { apply sorted_perm_eq.
    - now apply sorted_ranks.
    - simpl.
      repeat (apply SSorted_cons;
              [|repeat (apply Forall_cons; [lia|]); apply Forall_nil]).
      apply SSorted_nil.
    - unfold lineRank. rewrite <- (map_map classify rank).
      now apply Permutation_map. }
  destruct out as [|x0 [|x1 [|x2 out]]]; try discriminate E.
  simpl in E. injection E as E0 E1 E2 _.
  unfold canonicalStart.
  rewrite (proj1 (rank_prefix x0) E0).
  rewrite (proj1 (proj2 (rank_prefix x1)) E1).
  rewrite (proj2 (proj2 (rank_prefix x2)) E2).
  reflexivity.
Qed.

(** C4: [xheadersLessFunc] is irreflexive, asymmetric and transitive; and
    for every list holding one line of each recognized kind, in any order,
    sorting it by [xheadersLessFunc] puts the [diff --git] line first, the
    [old mode] line second and the [new mode] line third.  This holds for
    the insertion sort of [sort.Slice] and for any arrangement of the lines
    in which none is less than one before it. *)
Theorem xheadersLessFunc_canonical :
  (forall a, xheadersLessFunc a a = false)
  /\ (forall a b, xheadersLessFunc a b = true -> xheadersLessFunc b a = false)
  /\ (forall a b c, xheadersLessFunc a b = true -> xheadersLessFunc b c = true ->
                    xheadersLessFunc a c = true)
  /\ (forall input, Permutation (map classify input) recognizedKinds ->
        canonicalStart (sortSlice xheadersLessFunc input) = true
        /\ forall out, Permutation out input -> sortedBy xheadersLessFunc out ->
                       canonicalStart out = true).
Proof.
  split; [exact less_irrefl|]. split; [exact less_asym|]. split; [exact less_trans|].
  intros input Hp.
  assert (Hany : forall out, Permutation out input -> sortedBy xheadersLessFunc out ->
                             canonicalStart out = true).
  { intros out Ho Hs. apply canonical_of_sorted; [|exact Hs].
    apply Permutation_trans with (map classify input); [|exact Hp].
    now apply Permutation_map. }
  split; [|exact Hany].
  apply Hany; [apply sortSlice_perm|].
  apply sortSlice_sorted; [exact less_asym | exact less_false_trans].
Qed.

(** The test of the package: every permutation of [possibleHeaders], as
    [permutations] lists them, is sorted to a canonical start. *)
Lemma Test_xheadersLessFunc_passes :
  List.length (permutations 7 possibleHeaders) = 7 * 720
  /\ forallb (fun input => canonicalStart (sortSlice xheadersLessFunc input))
             (permutations 7 possibleHeaders) = true.
Proof. split; vm_compute; reflexivity. Qed.

Lemma xheadersLessFunc_canonical_witness :
  Permutation (map classify possibleHeaders) recognizedKinds
  /\ sortSlice xheadersLessFunc possibleHeaders =
     [ "diff --git a/file1 b/file2"; "old mode 100755"; "new mode 100644";
       "similarity index 70%"; "rename from file1"; "rename to file2";
       "index a9f9a6b..b0e5e4f" ]
  /\ canonicalStart (sortSlice xheadersLessFunc possibleHeaders) = true.
Proof.
  assert (Hp : Permutation (map classify possibleHeaders) recognizedKinds)
    by exact (Permutation_sym
                (Permutation_middle [OldMode; NewMode]
                   [SimilarityIndex; RenameFrom; RenameTo; Index] DiffGit)).
  split; [exact Hp|]. split; [reflexivity|].
  exact (proj1 (proj2 (proj2 (proj2 xheadersLessFunc_canonical)) possibleHeaders Hp)).
Defined.

(** ** The filename token decoder *)

Local Open Scope string_scope.

Lemma decodeFrom_encodeChar (tbl : EscapeTable) (c : ascii) (acc tail : string) :
  tableHasBasics tbl ->
  decodeFrom tbl 0 acc (encodeChar c ++ tail) = decodeFrom tbl 0 (acc ++ String c "") tail.
Proof.
  intros [Hq Hb]. unfold encodeChar.
  destruct (Ascii.eqb_spec c DQ) as [->|Hnq].
  - simpl. now rewrite Hq.
  - destruct (Ascii.eqb_spec c BSL) as [->|Hnb].
    + simpl. now rewrite Hb.
    + simpl.
      apply Ascii.eqb_neq in Hnq, Hnb. now rewrite Hnq, Hnb.
Qed.

Lemma decodeFrom_encode (tbl : EscapeTable) (value acc tail : string) :
  tableHasBasics tbl ->
  decodeFrom tbl 0 acc (encode value ++ tail) = decodeFrom tbl 0 (acc ++ value) tail.
Proof.
  intros Hb. revert acc. induction value as [|c value IH]; intros acc; simpl.
  - now rewrite append_nil_r.
  - rewrite append_assoc, decodeFrom_encodeChar by exact Hb.
    rewrite IH. now rewrite append_assoc.
Qed.

Lemma specEscapes_basics : tableHasBasics specEscapes.
Proof. split; intros rest; reflexivity. Qed.

Lemma literalEscapes_basics : tableHasBasics literalEscapes.
Proof. split; intros rest; reflexivity. Qed.

(** The table of the claim knows no third escape. *)
Lemma specEscapes_only (x : ascii) (rest : string) :
  x <> DQ -> x <> BSL -> specEscapes (String x rest) = None.
Proof.
  intros Hq Hb. simpl. apply Ascii.eqb_neq in Hq, Hb. now rewrite Hq, Hb.
Qed.

(** With the escapes of Go literals, and with the split the test requires,
    the four tests of the package pass. *)
Lemma package_tests_pass :
  passesReadQuotedFilename_Success literalEscapes = true
  /\ passesReadQuotedFilename_Error literalEscapes = true
  /\ passesParseDiffGitArgs_Success Symmetric literalEscapes = true
  /\ passesParseDiffGitArgs_Unsuccessful Symmetric literalEscapes = true.
Proof. repeat split; vm_compute; reflexivity. Qed.

(** C5, as amended: the decoder reads backslash-quote and
    backslash-backslash as quote and backslash, whatever other escapes its
    table holds; it fails with the malformed-token error on a text that does
    not start with a double quote, on a text with no unescaped closing quote
    (a backslash at the very end included), and on an escape that its table
    does not hold.  The table holds backslash-n and three octal digits,
    which the package tests decode, and not backslash-x before a character
    that is no hex digit. *)
Theorem readQuotedFilename_malformed :
  (forall tbl, tableHasBasics tbl ->
     (forall value rem,
        readQuotedFilename tbl (String DQ (encode value ++ String DQ rem)) = Token value rem)
     /\ (forall text, HasPrefix text (String DQ "") = false ->
           readQuotedFilename tbl text = Malformed)
     /\ (forall value,
           readQuotedFilename tbl (String DQ (encode value)) = Malformed
           /\ readQuotedFilename tbl (String DQ (encode value ++ String BSL "")) = Malformed)
     /\ (forall value rest, tbl rest = None ->
           readQuotedFilename tbl (String DQ (encode value ++ String BSL rest)) = Malformed))
  /\ tableHasBasics literalEscapes
  /\ (forall rest, literalEscapes (String "n" rest) = Some (nl, 1))
  /\ (forall rest, literalEscapes ("303" ++ rest) = Some (String "195"%char "", 3))
  /\ (forall c rest, hexDigit c = None -> literalEscapes (String "x" (String c rest)) = None)
  /\ readQuotedFilename literalEscapes (lit "'new\nline' and spaces")
     = Token ("new" ++ nl ++ "line") " and spaces"
  /\ readQuotedFilename literalEscapes (lit "'\xxx'") = Malformed.
Proof.
  split.
  - intros tbl Hb. split; [|split; [|split]].
    + intros value rem. simpl.
      now rewrite decodeFrom_encode by exact Hb.
    + intros [|c text] H; [reflexivity|].
      unfold HasPrefix in H. simpl in H. simpl.
      destruct (Ascii.eqb c DQ) eqn:E; [|reflexivity].
      apply Ascii.eqb_eq in E. subst c.
      destruct (ascii_dec DQ DQ) as [_|Hne]; [|now destruct Hne].
      destruct text; discriminate H.
    + intros value. split; simpl.
      * rewrite <- (append_nil_r (encode value)).
        now rewrite decodeFrom_encode by exact Hb.
      * rewrite decodeFrom_encode by exact Hb. simpl.
        now destruct (tbl "") as [[out n]|].
    + intros value rest Hnone. simpl.
      rewrite decodeFrom_encode by exact Hb. simpl. now rewrite Hnone.
  - split; [exact literalEscapes_basics|].
    split; [reflexivity|]. split; [reflexivity|].
    split; [|split; reflexivity].
    intros c rest Hc. simpl. rewrite Hc. now destruct rest.
Qed.

Lemma readQuotedFilename_malformed_witness :
  readQuotedFilename literalEscapes (lit "'uh \'oh\'' rest") = Token (lit "uh 'oh'") " rest"
  /\ readQuotedFilename literalEscapes " x" = Malformed
  /\ readQuotedFilename literalEscapes (lit "'uh \'oh\") = Malformed
  /\ readQuotedFilename literalEscapes (lit "'uh \'\z'") = Malformed.
Proof.
  destruct (proj1 readQuotedFilename_malformed literalEscapes literalEscapes_basics)
    as [Hdec [Hstart [Hopen Hesc]]].
  split; [exact (Hdec (lit "uh 'oh'") " rest")|].
  split; [exact (Hstart " x" eq_refl)|].
  split; [exact (proj2 (Hopen (lit "uh 'oh"))) | exact (Hesc (lit "uh '") (lit "z'") eq_refl)].
Defined.

(** The decoder as the claim has it, with the two escapes and no other,
    rejects the quoted token of the seventh row of
    [TestParseDiffGitArgs_Success], which the test reads as [new], a line
    feed and [line]; the splitter then fails on that row and on the eighth,
    so the test of the package fails. *)
Lemma claimed_decoder_fails_package_test :
  nth 6 TestParseDiffGitArgs_Success ("", "", "")
  = (lit "'new\nline' and spaces", "new" ++ nl ++ "line", "and spaces")
  /\ specEscapes (String "n" "line") = None
  /\ readQuotedFilename specEscapes (lit "'new\nline' and spaces") = Malformed
  /\ parseDiffGitArgs Symmetric specEscapes (lit "'new\nline' and spaces") = None
  /\ parseDiffGitArgs FirstComplete specEscapes (lit "'new\nline' and spaces") = None
  /\ map (passesRow Symmetric specEscapes) TestParseDiffGitArgs_Success
     = [true; true; true; true; true; true; false; false].
Proof. repeat split; vm_compute; reflexivity. Qed.

(** ** The splitter *)

#[local] Arguments Ascii.eqb : simpl never.

Lemma decodeFrom_skip_length (tbl : EscapeTable) (skip : nat) (acc t v r : string) :
  decodeFrom tbl skip acc t = Token v r -> skip < String.length t.
Proof.
  revert skip acc. induction t as [|c t IH]; intros skip acc H; [discriminate H|].
  destruct skip as [|k]; simpl; [lia|].
  simpl in H. apply IH in H. lia.
Qed.

Lemma substring_app_l (n : nat) (t r : string) :
  n <= String.length t -> substring 0 n (t ++ r) = substring 0 n t.
Proof.
  revert t. induction n as [|n IH]; intros [|c t] H; simpl in *; try lia.
  - now destruct r.
  - reflexivity.
  - f_equal. apply IH. lia.
Qed.

(** What the decoder has read decodes on its own. *)
Lemma decodeFrom_prefix (tbl : EscapeTable) (skip : nat) (acc s v r : string) :
  tableLocal tbl ->
  decodeFrom tbl skip acc s = Token v r ->
  exists t, s = t ++ r /\ decodeFrom tbl skip acc t = Token v "".
Proof.
  intros Hloc. revert skip acc. induction s as [|c s IH]; intros skip acc H;
    [discriminate H|].
  destruct skip as [|k].
  - simpl in H. destruct (Ascii.eqb c DQ) eqn:Eq.
    + injection H as <- <-. exists (String c ""). simpl. now rewrite Eq.
    + destruct (Ascii.eqb c BSL) eqn:Eb.
      * destruct (tbl s) as [[out n]|] eqn:Et; [|discriminate H].
        destruct (IH _ _ H) as [t [-> Ht]].
        exists (String c t). split; [reflexivity|].
        simpl. rewrite Eq, Eb.
        rewrite (Hloc _ _ _ Et t); [exact Ht|].
        symmetry. apply substring_app_l.
        apply decodeFrom_skip_length in Ht. lia.
      * destruct (IH _ _ H) as [t [-> Ht]].
        exists (String c t). split; [reflexivity|].
        simpl. now rewrite Eq, Eb.
  - simpl in H. destruct (IH _ _ H) as [t [-> Ht]].
    exists (String c t). split; [reflexivity | exact Ht].
Qed.

Lemma readQuotedFilename_prefix (tbl : EscapeTable) (s v r : string) :
  tableLocal tbl ->
  readQuotedFilename tbl s = Token v r ->
  exists t, s = t ++ r /\ readQuotedFilename tbl t = Token v "".
Proof.
  intros Hloc H. destruct s as [|c s]; [discriminate H|].
  simpl in H. destruct (Ascii.eqb c DQ) eqn:Eq; [|discriminate H].
  destruct (decodeFrom_prefix _ _ _ _ _ _ Hloc H) as [t [-> Ht]].
  exists (String c t). split; [reflexivity|]. simpl. now rewrite Eq.
Qed.

Lemma completeArg_readsAs (tbl : EscapeTable) (t v : string) :
  completeArg tbl t = Some v -> readsAs tbl t v.
Proof.
  unfold completeArg, readsAs. destruct t as [|c t]; [discriminate|].
  destruct (Ascii.eqb c DQ).
  - destruct (readQuotedFilename tbl (String c t)) as [v' [|? ?]|]; try discriminate.
    intros [= ->]. now left.
  - destruct (unquotedArg (String c t)) eqn:E; [|discriminate].
    intros [= <-]. now right.
Qed.

Lemma contains_app (c : ascii) (a b : string) :
  contains c (a ++ b) = contains c a || contains c b.
Proof.
  induction a as [|x a IH]; simpl; [reflexivity|].
  now rewrite IH, orb_assoc.
Qed.

(** What the scan of the specification returns: a split at a space, the
    part before it free of quotes. *)
Lemma firstSplit_spec (tbl : EscapeTable) (acc s first second : string) :
  firstSplit tbl acc s = Some (first, second) ->
  exists t1 t2, s = t1 ++ String SP t2 /\ first = acc ++ t1
                /\ contains DQ t1 = false /\ completeArg tbl t2 = Some second.
Proof.
  revert acc. induction s as [|c s IH]; intros acc H; [discriminate H|].
  simpl in H. destruct (Ascii.eqb c DQ) eqn:Eq; [discriminate H|].
  destruct (Ascii.eqb c SP) eqn:Es.
  - apply Ascii.eqb_eq in Es. subst c.
    destruct (completeArg tbl s) as [v|] eqn:Ec.
    + injection H as <- <-. exists "", s.
      now rewrite append_nil_r.
    + destruct (IH _ H) as [t1 [t2 [-> [-> [Hc Ha]]]]].
      exists (String SP t1), t2. repeat split; try assumption.
      now rewrite append_assoc.
  - destruct (IH _ H) as [t1 [t2 [-> [-> [Hc Ha]]]]].
    exists (String c t1), t2. repeat split; try assumption.
    + now rewrite append_assoc.
    + simpl. rewrite Ascii.eqb_sym, Eq. exact Hc.
Qed.

Lemma substring_split (k : nat) (s : string) (c : ascii) :
  get k s = Some c ->
  s = substring 0 k s ++ String c (substring (k + 1) (String.length s - (k + 1)) s).
Proof.
  revert s. induction k as [|k IH]; intros [|x s] H; try discriminate H.
  - simpl in H. injection H as ->. simpl.
    rewrite Nat.sub_0_r. f_equal.
    clear. induction s as [|y s IH]; simpl; [reflexivity|].
    f_equal. destruct s; [reflexivity|]. exact IH.
  - simpl in H. simpl. f_equal. now apply IH.
Qed.

Lemma middleSplit_spec (s first second : string) :
  middleSplit s = Some (first, second) ->
  s = first ++ String SP second /\ 3 <= String.length first.
Proof.
  unfold middleSplit.
  destruct (get (String.length s / 2) s) as [sp|] eqn:Eg; [|discriminate].
  destruct (get 1 _) as [sl|]; [|discriminate].
  destruct (Nat.odd _ && Ascii.eqb sp SP && Ascii.eqb sl "/"
            && Nat.leb 3 _ && String.eqb _ _) eqn:E; [|discriminate].
  intros [= <- <-].
  apply andb_true_iff in E as [E _]. apply andb_true_iff in E as [E Hlen].
  apply andb_true_iff in E as [E _]. apply andb_true_iff in E as [_ Hsp].
  apply Ascii.eqb_eq in Hsp. subst sp. apply Nat.leb_le in Hlen.
  split; [now apply substring_split | exact Hlen].
Qed.

Lemma unquotedArg_intro (t : string) :
  t <> "" -> contains DQ t = false -> unquotedArg t = true.
Proof.
  intros Hne Hc. unfold unquotedArg. rewrite Hc.
  apply String.eqb_neq in Hne. now rewrite Hne.
Qed.

Lemma splitUnquoted_spec (rule : SplitRule) (tbl : EscapeTable) (s first second : string) :
  splitUnquoted rule tbl s = Some (first, second) ->
  first <> "" -> second <> "" ->
  exists t2, s = first ++ String SP t2
             /\ unquotedArg first = true /\ readsAs tbl t2 second.
Proof.
  intros H Hf Hs.
  assert (Hfirst : firstSplit tbl "" s = Some (first, second) ->
                   exists t2, s = first ++ String SP t2
                              /\ unquotedArg first = true /\ readsAs tbl t2 second).
  { intros Hfs. destruct (firstSplit_spec _ _ _ _ _ Hfs) as [t1 [t2 [-> [E [Hc Ha]]]]].
    simpl in E. subst t1. exists t2. split; [reflexivity|].
    split; [now apply unquotedArg_intro | now apply completeArg_readsAs]. }
  destruct rule; unfold splitUnquoted in H; [now apply Hfirst|].
  destruct (negb (contains DQ s) && Nat.leb 2 (countChar SP s)) eqn:E;
    [|now apply Hfirst].
  apply andb_true_iff in E as [Hq _]. apply negb_true_iff in Hq.
  destruct (middleSplit_spec _ _ _ H) as [Es _].
  exists second. split; [exact Es|].
  rewrite Es, contains_app in Hq. apply orb_false_iff in Hq as [Hq1 Hq2].
  simpl in Hq2.
  split; [now apply unquotedArg_intro|].
  right. split; [reflexivity | now apply unquotedArg_intro].
Qed.

(** A text without space or quote is scanned through. *)
Lemma firstSplit_one_space (tbl : EscapeTable) (acc a b : string) :
  contains SP a = false -> contains DQ a = false ->
  unquotedArg b = true ->
  firstSplit tbl acc (a ++ String SP b) = Some (acc ++ a, b).
Proof.
  revert acc. induction a as [|c a IH]; intros acc Hs Hq Hb; simpl.
  - assert (Hc : completeArg tbl b = Some b).
    { unfold completeArg. destruct b as [|x b]; [discriminate Hb|].
      assert (Hx : Ascii.eqb x DQ = false).
      { unfold unquotedArg in Hb. apply andb_true_iff in Hb as [_ Hb'].
        apply negb_true_iff in Hb'. simpl in Hb'.
        apply orb_false_iff in Hb' as [Hb' _]. now rewrite Ascii.eqb_sym. }
      now rewrite Hx, Hb. }
    now rewrite Hc, append_nil_r.
  - simpl in Hs, Hq.
    apply orb_false_iff in Hs as [Hs1 Hs2]. apply orb_false_iff in Hq as [Hq1 Hq2].
    rewrite Ascii.eqb_sym, Hq1, Ascii.eqb_sym, Hs1.
    rewrite IH by assumption. now rewrite append_assoc.
Qed.

Lemma countChar_app (c : ascii) (a b : string) :
  countChar c (a ++ b) = countChar c a + countChar c b.
Proof.
  induction a as [|x a IH]; simpl; [reflexivity|]. rewrite IH. lia.
Qed.

Lemma countChar_absent (c : ascii) (a : string) :
  contains c a = false -> countChar c a = 0.
Proof.
  induction a as [|x a IH]; simpl; [reflexivity|].
  intros H. apply orb_false_iff in H as [Hx Ha]. rewrite Hx. now apply IH.
Qed.

Lemma unquotedArg_elim (t : string) :
  unquotedArg t = true -> t <> "" /\ contains DQ t = false.
Proof.
  unfold unquotedArg. intros H. apply andb_true_iff in H as [Hne Hq].
  apply negb_true_iff in Hne, Hq. now apply String.eqb_neq in Hne.
Qed.

Lemma specEscapes_local : tableLocal specEscapes.
Proof.
  intros [|c rest] out n H; [discriminate H|].
  unfold specEscapes in H.
  destruct (Ascii.eqb c DQ) eqn:Eq; [|destruct (Ascii.eqb c BSL) eqn:Eb; [|discriminate H]];
    injection H as <- <-; intros [|c' rest'] E; simpl in E; try discriminate E;
    injection E as ->; unfold specEscapes; now rewrite Eq, ?Eb.
Qed.

Lemma literalEscapes_local : tableLocal literalEscapes.
Proof.
  intros [|c rest] out n H; [discriminate H|].
  unfold literalEscapes in H.
  destruct (simpleEscape c) as [d|] eqn:Es.
  - injection H as <- <-. intros [|c' rest'] E; simpl in E; [discriminate E|].
    injection E as ->. unfold literalEscapes. now rewrite Es.
  - destruct (Ascii.eqb c "x") eqn:Ex.
    + destruct rest as [|h1 [|h2 rest]]; try discriminate H.
      destruct (hexDigit h1) as [a|] eqn:E1; [|discriminate H].
      destruct (hexDigit h2) as [b|] eqn:E2; [|discriminate H].
      injection H as <- <-.
      intros [|c' [|h1' [|h2' rest']]] E; simpl in E; try discriminate E.
      injection E as -> -> ->. unfold literalEscapes. now rewrite Es, Ex, E1, E2.
    + destruct (octalDigit c) as [a|] eqn:E0; [|discriminate H].
      destruct rest as [|o2 [|o3 rest]]; try discriminate H.
      destruct (octalDigit o2) as [b|] eqn:E1; [|discriminate H].
      destruct (octalDigit o3) as [d|] eqn:E2; [|discriminate H].
      destruct (64 * a + 8 * b + d <=? 255)%N eqn:El; [|discriminate H].
      injection H as <- <-.
      intros [|c' [|o2' [|o3' rest']]] E; simpl in E; try discriminate E.
      injection E as -> -> ->. unfold literalEscapes.
      now rewrite Es, Ex, E0, E1, E2, El.
Qed.

(** C6, as amended: the splitter succeeds only on a text made of one
    argument, one space and a second argument that takes the text to its
    end, both arguments non-empty (failure is [None]); a text of two
    unquoted names without spaces is split at its one space; and the
    unquoted text [1/hello world 2/hello world] is split at its middle
    space, between the two names that agree after their first character,
    into [1/hello world] and [2/hello world], where the first space whose
    remainder is a complete second argument would have given [1/hello]. *)
Theorem parseDiffGitArgs_two_arguments :
  (forall rule tbl s first second, tableLocal tbl ->
     parseDiffGitArgs rule tbl s = Some (first, second) ->
     first <> "" /\ second <> ""
     /\ exists t1 t2, s = t1 ++ String SP t2
                      /\ readsAs tbl t1 first /\ readsAs tbl t2 second)
  /\ (forall rule tbl a b,
        unquotedArg a = true -> unquotedArg b = true ->
        contains SP a = false -> contains SP b = false ->
        parseDiffGitArgs rule tbl (a ++ String SP b) = Some (a, b))
  /\ parseDiffGitArgs Symmetric literalEscapes "1/hello world 2/hello world"
     = Some ("1/hello world", "2/hello world")
  /\ firstSplit literalEscapes "" "1/hello world 2/hello world"
     = Some ("1/hello", "world 2/hello world").
Proof.
  split; [|split; [|split; reflexivity]].
  - intros rule tbl s first second Hloc H.
    unfold parseDiffGitArgs in H.
    match type of H with
    | match ?f with _ => _ end = _ => destruct f as [[f1 f2]|] eqn:Ef; [|discriminate H]
    end.
    destruct (String.eqb f1 "" || String.eqb f2 "") eqn:En; [discriminate H|].
    injection H as -> ->.
    apply orb_false_iff in En as [En1 En2].
    apply String.eqb_neq in En1, En2.
    split; [exact En1|]. split; [exact En2|].
    destruct s as [|c s]; [discriminate Ef|].
    destruct (Ascii.eqb c DQ) eqn:Eq.
    + destruct (readQuotedFilename tbl (String c s)) as [v [|sp rest]|] eqn:Er;
        try discriminate Ef.
      destruct (Ascii.eqb sp SP) eqn:Esp; [|discriminate Ef].
      apply Ascii.eqb_eq in Esp. subst sp.
      destruct (completeArg tbl rest) as [w|] eqn:Ec; [|discriminate Ef].
      injection Ef as -> ->.
      destruct (readQuotedFilename_prefix _ _ _ _ Hloc Er) as [t [Es Ht]].
      exists t, rest. split; [exact Es|].
      split; [now left | now apply completeArg_readsAs].
    + destruct (splitUnquoted_spec _ _ _ _ _ Ef En1 En2) as [t2 [Es [Hu Hr]]].
      exists first, t2. split; [exact Es|]. split; [|exact Hr].
      right. now split.
  - intros rule tbl a b Ha Hb Hsa Hsb.
    destruct (unquotedArg_elim _ Ha) as [Hane Haq].
    destruct (unquotedArg_elim _ Hb) as [Hbne Hbq].
    assert (Hsplit : splitUnquoted rule tbl (a ++ String SP b) = Some (a, b)).
    { pose proof (firstSplit_one_space tbl "" a b Hsa Haq Hb) as Hfs. simpl in Hfs.
      destruct rule; unfold splitUnquoted; [exact Hfs|].
      rewrite countChar_app. simpl.
      rewrite (countChar_absent _ _ Hsa), (countChar_absent _ _ Hsb).
      rewrite andb_false_r. exact Hfs. }
    unfold parseDiffGitArgs.
    destruct a as [|c a]; [now destruct Hane|].
    simpl in Haq. apply orb_false_iff in Haq as [Hc _].
    change (String c a ++ String SP b) with (String c (a ++ String SP b)) in *.
    lazy beta iota zeta.
    rewrite Ascii.eqb_sym, Hc, Hsplit.
    apply String.eqb_neq in Hbne. rewrite Hbne. reflexivity.
Qed.

Lemma parseDiffGitArgs_two_arguments_witness :
  tableLocal literalEscapes
  /\ parseDiffGitArgs Symmetric literalEscapes (lit "'new\nline' and spaces")
     = Some ("new" ++ nl ++ "line", "and spaces")
  /\ (exists t1 t2,
        lit "'new\nline' and spaces" = t1 ++ String SP t2
        /\ readsAs literalEscapes t1 ("new" ++ nl ++ "line")
        /\ readsAs literalEscapes t2 "and spaces")
  /\ parseDiffGitArgs FirstComplete specEscapes "1/a 2/z" = Some ("1/a", "2/z").
Proof.
  split; [exact literalEscapes_local|]. split; [reflexivity|]. split.
  - exact (proj2 (proj2 (proj1 parseDiffGitArgs_two_arguments
                           Symmetric literalEscapes (lit "'new\nline' and spaces")
                           ("new" ++ nl ++ "line") "and spaces"
                           literalEscapes_local eq_refl))).
  - exact (proj1 (proj2 parseDiffGitArgs_two_arguments)
             FirstComplete specEscapes "1/a" "2/z" eq_refl eq_refl eq_refl eq_refl).
Defined.

(** Step 2 of section 4.2 as worded, the first space whose remainder is a
    complete second argument, splits the text of the sixth row of
    [TestParseDiffGitArgs_Success] after [1/hello]: not the result that the
    claim states and the test requires. *)
Lemma first_complete_split_fails_package_test :
  nth 5 TestParseDiffGitArgs_Success ("", "", "")
  = ("1/hello world 2/hello world", "1/hello world", "2/hello world")
  /\ parseDiffGitArgs FirstComplete specEscapes "1/hello world 2/hello world"
     = Some ("1/hello", "world 2/hello world")
  /\ parseDiffGitArgs FirstComplete literalEscapes "1/hello world 2/hello world"
     = Some ("1/hello", "world 2/hello world")
  /\ completeArg literalEscapes "world 2/hello world" = Some "world 2/hello world"
  /\ passesRow FirstComplete literalEscapes
       ("1/hello world 2/hello world", "1/hello world", "2/hello world") = false.
Proof. repeat split; vm_compute; reflexivity. Qed.

(** ** Results put together *)

Local Open Scope list_scope.

Lemma concatResults_app (a b : list (result bytes)) :
  concatResults (a ++ b) =
  match concatResults a, concatResults b with
  | Ok x, Ok y => Ok (x ++ y)
  | _, _ => Panic
  end.
Proof.
  induction a as [|r a IH]; simpl.
  - now destruct (concatResults b).
  - rewrite IH. destruct r as [o|]; [|reflexivity].
    destruct (concatResults a) as [x|]; [|reflexivity].
    destruct (concatResults b) as [y|]; [|reflexivity].
    now rewrite app_assoc.
Qed.

Lemma concatResults_panic (rs : list (result bytes)) :
  concatResults rs = Panic <-> In Panic rs.
Proof.
  induction rs as [|r rs IH]; simpl.
  - split; [discriminate | tauto].
  - destruct r as [o|].
    + destruct (concatResults rs) as [x|].
      * split; [discriminate|]. intros [H|H]; [discriminate H|].
        now apply IH in H.
      * split; [|reflexivity]. intros _. right. now apply IH.
    + split; [now left | reflexivity].
Qed.

(** A loop whose turns each append a result, or panic, appends the results
    put together. *)
Lemma forEach_results {A : Type} (f : A -> Writer unit) (g : A -> result bytes)
    (l : list A) :
  (forall x buf, f x buf = match g x with
                           | Ok o => Ok (tt, buf ++ o)
                           | Panic => Panic
                           end) ->
  forall buf, forEach l f buf =
              match concatResults (map g l) with
              | Ok out => Ok (tt, buf ++ out)
              | Panic => Panic
              end.
Proof.
  intros Hf. induction l as [|x l IH]; intros buf; simpl.
  - unfold ret. now rewrite app_nil_r.
  - unfold bind. rewrite Hf. destruct (g x) as [o|]; [|reflexivity].
    rewrite IH. destruct (concatResults (map g l)) as [out|]; [|reflexivity].
    now rewrite app_assoc.
Qed.

(** ** The hunk printer on every hunk *)

Lemma printHunk_checked (h : Hunk) (buf : bytes) :
  printHunk h buf = match renderChecked h with
                    | Ok o => Ok (tt, buf ++ o)
                    | Panic => Panic
                    end.
Proof.
  unfold renderChecked.
  destruct (Nat.leb (N.to_nat (OrigNoNewlineAt h)) (len (Body h))) eqn:E.
  - apply Nat.leb_le in E. now apply writes_printHunk.
  - apply Nat.leb_gt in E. now apply printHunk_out_of_range.
Qed.

Lemma PrintHunks_checked (hunks : list Hunk) :
  PrintHunks hunks = concatResults (map renderChecked hunks).
Proof.
  unfold PrintHunks, Bytes.
  rewrite (forEach_results printHunk renderChecked hunks printHunk_checked).
  now destruct (concatResults _).
Qed.

Lemma renderChecked_panic (h : Hunk) :
  renderChecked h = Panic <-> markBeyondBody h.
Proof.
  unfold renderChecked, markBeyondBody.
  destruct (Nat.leb _ _) eqn:E.
  - apply Nat.leb_le in E. split; [discriminate | lia].
  - apply Nat.leb_gt in E. split; [intros _; exact E | reflexivity].
Qed.

Lemma PrintHunks_panic (hunks : list Hunk) :
  PrintHunks hunks = Panic <-> Exists markBeyondBody hunks.
Proof.
  rewrite PrintHunks_checked, concatResults_panic, Exists_exists, in_map_iff.
  split.
  - intros [h [Hp Hin]]. exists h. split; [exact Hin | now apply renderChecked_panic].
  - intros [h [Hin Hb]]. exists h. split; [now apply renderChecked_panic | exact Hin].
Qed.

(** [PrintHunks] of two lists of hunks, one after the other, returns what it
    returns for the first followed by what it returns for the second, and
    panics when it panics on either; of no hunks it returns no bytes. *)
Theorem PrintHunks_app (hunks more : list Hunk) :
  PrintHunks (hunks ++ more) =
  match PrintHunks hunks, PrintHunks more with
  | Ok out, Ok out' => Ok (out ++ out')
  | _, _ => Panic
  end
  /\ PrintHunks [] = Ok [].
Proof.
  split; [|reflexivity].
  rewrite !PrintHunks_checked, map_app. apply concatResults_app.
Qed.

Lemma clipped_render (h : Hunk) : renderChecked (clipped h) = renderChecked h.
Proof. reflexivity. Qed.

(** What the backing array of a body holds beyond the length of the body
    never reaches the output of [PrintHunks], and makes no difference to a
    panic: a mark beyond the length and within the capacity passes the
    first slice expression, and the second panics. *)
Theorem PrintHunks_ignores_spare (hunks : list Hunk) :
  PrintHunks hunks = PrintHunks (map clipped hunks)
  /\ (forall h, In h hunks ->
        len (Body h) < N.to_nat (OrigNoNewlineAt h) <= cap (Body h) ->
        (exists p, slice_hi (Body h) (N.to_nat (OrigNoNewlineAt h)) = Ok p)
        /\ PrintHunks hunks = Panic).
Proof.
  split.
  - rewrite !PrintHunks_checked, map_map.
    f_equal.
  - intros h Hin [Hlo Hhi]. split.
    + unfold slice_hi. apply Nat.leb_le in Hhi. rewrite Hhi. now eexists.
    + apply PrintHunks_panic, Exists_exists. now exists h.
Qed.

Lemma HasSuffix_last (b : bytes) (c : byte) :
  HasSuffix b [c] = true -> exists pre, b = pre ++ [c].
Proof.
  destruct b as [|x b] using rev_ind; [discriminate|].
  rewrite HasSuffix_snoc. intros H.
  exists b. now rewrite (byte_dec_bl _ _ H).
Qed.

Lemma bodyWithMarker_ends_newline (h : Hunk) :
  HasSuffix (elems (Body h)) [LFb] = true ->
  exists pre, bodyWithMarker h = pre ++ [LFb].
Proof.
  intros Hs. destruct (HasSuffix_last _ _ Hs) as [pre Hpre].
  unfold bodyWithMarker.
  destruct (N.eqb (OrigNoNewlineAt h) 0); [now exists pre|].
  destruct markerLine_ends_with_newline as [m Hm].
  destruct (skipn (N.to_nat (OrigNoNewlineAt h)) (elems (Body h))) as [|x tl] eqn:Esk
    using rev_ind.
  - exists (firstn (N.to_nat (OrigNoNewlineAt h)) (elems (Body h)) ++ m).
    now rewrite app_nil_r, Hm, app_assoc.
  - clear IHtl.
    assert (Hx : x = LFb).
    { pose proof (firstn_skipn (N.to_nat (OrigNoNewlineAt h)) (elems (Body h))) as Hb.
      rewrite Esk, Hpre, app_assoc in Hb. now apply snoc_inj in Hb. }
    subst x.
    exists (firstn (N.to_nat (OrigNoNewlineAt h)) (elems (Body h)) ++ markerLine ++ tl).
    now rewrite <- !app_assoc.
Qed.

Lemma renderHunk_ends_newline (h : Hunk) :
  exists pre, renderHunk h = pre ++ [LFb].
Proof.
  unfold renderHunk, trailingMarker.
  destruct (HasSuffix (elems (Body h)) [LFb]) eqn:Hs.
  - destruct (bodyWithMarker_ends_newline h Hs) as [pre Hpre].
    exists (bytes_of (rangeHeader h) ++ pre).
    now rewrite app_nil_r, Hpre, app_assoc.
  - destruct markerLine_ends_with_newline as [m Hm].
    exists (bytes_of (rangeHeader h) ++ bodyWithMarker h ++ LFb :: m).
    rewrite Hm. now rewrite <- !app_assoc.
Qed.

(** Whatever the bodies hold, what [PrintHunks] returns for hunks that it
    prints without a panic ends with a newline, and starts with the two at
    signs of a range header: an empty body, or one cut off in the middle of
    a line, is closed by the marker line. *)
Theorem PrintHunks_whole_lines (hunks : list Hunk) (out : bytes) :
  hunks <> [] ->
  PrintHunks hunks = Ok out ->
  (exists pre, out = pre ++ [LFb])
  /\ (exists rest, out = bytes_of "@@ -" ++ rest).
Proof.
  intros Hne H. rewrite PrintHunks_checked in H. split.
  - destruct (exists_last Hne) as [front [h ->]].
    rewrite map_app, concatResults_app in H.
    destruct (concatResults (map renderChecked front)) as [x|]; [|discriminate H].
    change (concatResults (map renderChecked [h]))
      with (match renderChecked h with Ok a => Ok (a ++ []) | Panic => Panic end) in H.
    unfold renderChecked in H.
    destruct (Nat.leb _ _); [|discriminate H].
    destruct (renderHunk_ends_newline h) as [pre Hpre].
    assert (E : out = x ++ renderHunk h ++ []) by congruence.
    exists (x ++ pre). now rewrite E, app_nil_r, Hpre, app_assoc.
  - destruct hunks as [|h tl]; [contradiction|].
    change (concatResults (map renderChecked (h :: tl)))
      with (match renderChecked h, concatResults (map renderChecked tl) with
            | Ok a, Ok b => Ok (a ++ b)
            | _, _ => Panic
            end) in H.
    unfold renderChecked in H at 1.
    destruct (Nat.leb _ _); [|discriminate H].
    destruct (concatResults (map renderChecked tl)) as [y|]; [|discriminate H].
    assert (E : out = renderHunk h ++ y) by congruence.
    rewrite E. unfold renderHunk, rangeHeader.
    rewrite !bytes_of_app, <- !app_assoc. eexists. reflexivity.
Qed.

(** ** The file diff printer on every file diff *)

Lemma offsetInBody_or_beyond (hunks : list Hunk) :
  Forall offsetInBody hunks <-> ~ Exists markBeyondBody hunks.
Proof.
  rewrite Forall_forall, Exists_exists. unfold offsetInBody, markBeyondBody. split.
  - intros H [h [Hin Hb]]. specialize (H h Hin). lia.
  - intros H h Hin.
    destruct (le_lt_dec (N.to_nat (OrigNoNewlineAt h)) (len (Body h))) as [Hle|Hlt];
      [exact Hle|].
    exfalso. apply H. now exists h.
Qed.

Section PrinterResults.

Context {ext : Collaborators}.

Lemma PrintFileDiff_result (d : FileDiff) (options : list PrintFileDiffOption) :
  PrintFileDiff d options = fileDiffResult d options.
Proof.
  unfold PrintFileDiff, fileDiffResult, Bytes.
  unfold bind at 1. rewrite writes_extended.
  change ([] ++ ?x) with x.
  destruct (String.eqb (NewName d) "").
  - reflexivity.
  - destruct (Hunks d) as [hunks|].
    + unfold bind. rewrite !writes_printFileHeader.
      unfold eval, Write. destruct (PrintHunks hunks) as [ph|]; [|reflexivity].
      now rewrite <- !app_assoc.
    + reflexivity.
Qed.

Lemma PrintFileDiff_panic (d : FileDiff) (options : list PrintFileDiffOption) :
  PrintFileDiff d options = Panic <->
  NewName d <> ""
  /\ exists hunks, Hunks d = Some hunks /\ Exists markBeyondBody hunks.
Proof.
  rewrite PrintFileDiff_result. unfold fileDiffResult.
  destruct (String.eqb_spec (NewName d) "") as [E|E].
  - split; [discriminate | intros [H _]; contradiction].
  - destruct (Hunks d) as [hunks|].
    + pose proof (PrintHunks_panic hunks) as Hp.
      destruct (PrintHunks hunks) as [ph|].
      * split; [discriminate|]. intros [_ [hs [[= <-] Hex]]].
        apply Hp in Hex. discriminate Hex.
      * split; [|reflexivity]. intros _. split; [exact E|].
        exists hunks. split; [reflexivity | now apply Hp].
    + split; [discriminate | intros [_ [hs [Hs _]]]; discriminate Hs].
Qed.

(** [PrintFileDiff] returns in exactly these cases: the new name is empty,
    or the hunks are nil, or the mark of every hunk is an offset into its
    body; in every other case a slice expression of [PrintHunks] panics.
    Names, times, header lines and options play no part in it. *)
Theorem PrintFileDiff_returns (d : FileDiff) (options : list PrintFileDiffOption) :
  (exists out, PrintFileDiff d options = Ok out) <->
  NewName d = "" \/ Hunks d = None
  \/ exists hunks, Hunks d = Some hunks /\ Forall offsetInBody hunks.
Proof.
  pose proof (PrintFileDiff_panic d options) as Hp.
  split.
  - intros [out Hout].
    destruct (String.eqb_spec (NewName d) "") as [E|E]; [now left|].
    destruct (Hunks d) as [hunks|] eqn:Eh; [|now (right; left)].
    right. right. exists hunks. split; [reflexivity|].
    apply offsetInBody_or_beyond. intros Hex.
    assert (Hpanic : PrintFileDiff d options = Panic).
    { apply Hp. split; [exact E|]. now exists hunks. }
    rewrite Hpanic in Hout. discriminate Hout.
  - intros Hcase.
    destruct (PrintFileDiff d options) as [out|] eqn:Eout; [now exists out|].
    exfalso. destruct (proj1 Hp eq_refl) as [Hn [hunks [Hh Hex]]].
    destruct Hcase as [E|[E|[hs [E Hall]]]].
    + contradiction.
    + rewrite E in Hh. discriminate Hh.
    + rewrite E in Hh. injection Hh as <-.
      now apply offsetInBody_or_beyond in Hall.
Qed.

Lemma PrintMultiFileDiff_results (ds : list FileDiff) (options : list PrintFileDiffOption) :
  PrintMultiFileDiff ds options = concatResults (map (fun d => fileDiffResult d options) ds).
Proof.
  unfold PrintMultiFileDiff, Bytes. rewrite forEach_files.
  rewrite (map_ext _ _ (fun d => PrintFileDiff_result d options)).
  now destruct (concatResults _).
Qed.

(** [PrintMultiFileDiff] of two lists of file diffs, one after the other,
    returns what it returns for the first followed by what it returns for
    the second, and panics when it panics on either; of no file diff it
    returns no bytes, and of one what [PrintFileDiff] returns. *)
Theorem PrintMultiFileDiff_app (ds more : list FileDiff) (options : list PrintFileDiffOption) :
  PrintMultiFileDiff (ds ++ more) options =
  match PrintMultiFileDiff ds options, PrintMultiFileDiff more options with
  | Ok out, Ok out' => Ok (out ++ out')%list
  | _, _ => Panic
  end
  /\ PrintMultiFileDiff [] options = Ok []
  /\ (forall d, PrintMultiFileDiff [d] options = PrintFileDiff d options).
Proof.
  split; [|split; [reflexivity|]].
  - rewrite !PrintMultiFileDiff_results, map_app. apply concatResults_app.
  - intros d. rewrite PrintMultiFileDiff_results, PrintFileDiff_result. simpl.
    destruct (fileDiffResult d options) as [out|]; [|reflexivity].
    now rewrite app_nil_r.
Qed.

(** [PrintMultiFileDiff] gives all or nothing: it panics, and returns
    nothing of the other file diffs, exactly when some file diff with a new
    name holds a hunk whose mark lies beyond its body. *)
Theorem PrintMultiFileDiff_all_or_nothing (ds : list FileDiff)
    (options : list PrintFileDiffOption) :
  (PrintMultiFileDiff ds options = Panic <->
   exists d, In d ds /\ NewName d <> ""
             /\ exists hunks, Hunks d = Some hunks /\ Exists markBeyondBody hunks)
  /\ (PrintMultiFileDiff ds options <> Panic ->
      exists out, PrintMultiFileDiff ds options = Ok out
                  /\ forall d, In d ds -> exists part, PrintFileDiff d options = Ok part).
Proof.
  assert (Hiff : PrintMultiFileDiff ds options = Panic <->
                 exists d, In d ds /\ PrintFileDiff d options = Panic).
  { rewrite PrintMultiFileDiff_results, concatResults_panic, in_map_iff.
    split; intros [d H]; exists d; rewrite PrintFileDiff_result in *; tauto. }
  split.
  - rewrite Hiff. split; intros [d [Hin H]]; exists d; (split; [exact Hin|]).
    + exact (proj1 (PrintFileDiff_panic d options) H).
    + exact (proj2 (PrintFileDiff_panic d options) H).
  - intros Hok. destruct (PrintMultiFileDiff ds options) as [out|] eqn:E; [|contradiction].
    exists out. split; [reflexivity|]. intros d Hin.
    destruct (PrintFileDiff d options) as [part|] eqn:Ed; [now exists part|].
    assert (Hp : Ok out = Panic) by (apply Hiff; now exists d).
    discriminate Hp.
Qed.

Lemma getOptions_last (options : list PrintFileDiffOption) :
  getOptions (options ++ [WithQuotedNames]) = getOptions [WithQuotedNames].
Proof. unfold getOptions. now rewrite fold_left_app. Qed.

(** The options count only through the names being quoted or not, and
    [WithQuotedNames] given last turns the quoting on whatever options
    stand before it, so that giving it more than once changes nothing;
    with no option the names are not quoted. *)
Theorem WithQuotedNames_last (options : list PrintFileDiffOption) :
  quoteNames (getOptions []) = false
  /\ quoteNames (getOptions (options ++ [WithQuotedNames])) = true
  /\ (forall d, PrintFileDiff d (options ++ [WithQuotedNames]) =
                PrintFileDiff d [WithQuotedNames])
  /\ (forall ds, PrintMultiFileDiff ds (options ++ [WithQuotedNames]) =
                 PrintMultiFileDiff ds [WithQuotedNames]).
Proof.
  assert (Hd : forall d, PrintFileDiff d (options ++ [WithQuotedNames]) =
                         PrintFileDiff d [WithQuotedNames]).
  { intros d. unfold PrintFileDiff. now rewrite getOptions_last. }
  split; [reflexivity|]. split; [now rewrite getOptions_last|]. split; [exact Hd|].
  intros ds. unfold PrintMultiFileDiff, Bytes. rewrite !forEach_files.
  now rewrite (map_ext _ _ Hd).
Qed.

End PrinterResults.

(** ** Quoting, once more *)

Local Open Scope string_scope.

Lemma noControl_app (a b : string) :
  noControl (a ++ b) = noControl a && noControl b.
Proof.
  induction a as [|c a IH]; simpl; [reflexivity|].
  now rewrite IH, andb_assoc.
Qed.

Lemma below_cases (P : N -> Prop) (bound : nat) :
  (forall k, k < bound -> P (N.of_nat k)) ->
  forall n, (n < N.of_nat bound)%N -> P n.
Proof.
  intros H n Hn. rewrite <- (N2Nat.id n). apply H. lia.
Qed.

Lemma lowerhex_noControl (n : N) : isControl (lowerhex n) = false.
Proof.
  unfold lowerhex. generalize (N.to_nat n). intros k.
  do 17 (destruct k as [|k]; [reflexivity|]). reflexivity.
Qed.

Lemma hexDigits_noControl (width : nat) (r : N) : noControl (hexDigits width r) = true.
Proof.
  unfold hexDigits. generalize (fun i => N.land (N.shiftr r (4 * N.of_nat i)) 15).
  intros g. change (fun i : nat => lowerhex (g i)) with (fun i : nat => lowerhex (g i)).
  induction (rev (seq 0 width)) as [|i l IH]; [reflexivity|].
  cbn [map string_of_list_ascii noControl].
  now rewrite lowerhex_noControl, IH.
Qed.

(** A byte of a UTF-8 sequence of two bytes or more is no control
    character. *)
Lemma wide_noControl (hi : N) (bound : nat) (x : N) :
  (x < N.of_nat bound)%N ->
  (forall k, k < bound -> isControl (chr (N.lor hi (N.of_nat k))) = false) ->
  isControl (chr (N.lor hi x)) = false.
Proof.
  intros Hx H. revert x Hx. apply below_cases. exact H.
Qed.

(** Settles a statement about every number below a bound, number by
    number. *)
Ltac each_below :=
  let k := fresh "k" in
  let Hk := fresh "Hk" in
  intros k Hk; repeat (destruct k as [|k]; [reflexivity | try lia]).

Lemma continuation_noControl (x : N) :
  isControl (chr (N.lor 0x80 (N.land x 0x3F))) = false.
Proof.
  apply (wide_noControl 0x80 64).
  - pose proof (N.land_le_r x 0x3F). lia.
  - each_below.
Qed.

Lemma shiftr_below (r : N) (sh : N) (top : N) :
  (r <= top)%N -> (N.shiftr r sh <= top / 2 ^ sh)%N.
Proof.
  intros H. rewrite N.shiftr_div_pow2.
  apply N.Div0.div_le_mono. exact H.
Qed.

Lemma AppendRune_noControl (r : N) :
  (0x7F < r)%N -> noControl (AppendRune r) = true.
Proof.
  intros Hr. unfold AppendRune.
  replace (r <=? 0x7F)%N with false by (symmetry; apply N.leb_gt; exact Hr).
  destruct (r <=? 0x7FF)%N eqn:E2.
  { apply N.leb_le in E2. cbn [noControl].
    rewrite continuation_noControl, andb_true_r.
    apply negb_true_iff. apply (wide_noControl 0xC0 32); [|each_below].
    pose proof (shiftr_below r 6 0x7FF E2) as Hs.
    change (0x7FF / 2 ^ 6)%N with 31%N in Hs. lia. }
  destruct (negb (ValidRune r)) eqn:Ev; [reflexivity|].
  apply negb_false_iff in Ev. unfold ValidRune in Ev.
  apply andb_true_iff in Ev as [Emax _]. apply N.leb_le in Emax.
  destruct (r <=? 0xFFFF)%N eqn:E3.
  { apply N.leb_le in E3. cbn [noControl].
    rewrite !continuation_noControl. cbn [negb andb]. rewrite andb_true_r.
    apply negb_true_iff. apply (wide_noControl 0xE0 16); [|each_below].
    pose proof (shiftr_below r 12 0xFFFF E3) as Hs.
    change (0xFFFF / 2 ^ 12)%N with 15%N in Hs. lia. }
  cbn [noControl]. rewrite !continuation_noControl.
  cbn [negb andb]. rewrite andb_true_r.
  apply negb_true_iff. apply (wide_noControl 0xF0 5); [|each_below].
  pose proof (shiftr_below r 18 MaxRune Emax) as Hs.
  change (MaxRune / 2 ^ 18)%N with 4%N in Hs. lia.
Qed.

Section Quoting.

Context {ext : Collaborators}.

Lemma IsPrint_ascii (r : N) :
  (r <= 0x7F)%N -> IsPrint r = true -> isControl (chr r) = false.
Proof.
  intros Hr. unfold IsPrint.
  replace (r <=? 0xFF)%N with true by (symmetry; apply N.leb_le; lia).
  destruct (between 0x20 0x7E r) eqn:Eb.
  - intros _. unfold between in Eb. apply andb_true_iff in Eb as [Hlo Hhi].
    apply N.leb_le in Hlo, Hhi.
    unfold isControl, chr. rewrite N_ascii_embedding by lia.
    apply orb_false_iff. split; [apply N.ltb_ge | apply N.eqb_neq]; lia.
  - unfold between. destruct (0xA1 <=? r)%N eqn:Ea; [apply N.leb_le in Ea; lia|].
    discriminate.
Qed.

Lemma appendEscapedRune_noControl (r : N) : noControl (appendEscapedRune r) = true.
Proof.
  unfold appendEscapedRune.
  destruct ((r =? N_of_ascii DQ)%N || (r =? N_of_ascii BSL)%N) eqn:Eq.
  { apply orb_true_iff in Eq as [E|E]; apply N.eqb_eq in E; subst r; reflexivity. }
  destruct (IsPrint r) eqn:Ep.
  { destruct (N.le_gt_cases r 0x7F) as [Hlo|Hhi].
    - unfold AppendRune.
      replace (r <=? 0x7F)%N with true by (symmetry; apply N.leb_le; exact Hlo).
      simpl. now rewrite (IsPrint_ascii r Hlo Ep).
    - now apply AppendRune_noControl. }
  destruct (namedEscape r) as [c|] eqn:En.
  { unfold namedEscape in En.
    repeat match type of En with
           | (if ?b then _ else _) = _ => destruct b
           end; try discriminate En; injection En as <-; reflexivity. }
  repeat match goal with
         | |- context [if ?b then _ else _] => destruct b
         end;
    rewrite noControl_app, hexDigits_noControl; reflexivity.
Qed.

Lemma quoteRunes_noControl (s : string) :
  forall skip, noControl (quoteRunes skip s) = true.
Proof.
  induction s as [|c0 rest IH]; intros skip; [reflexivity|].
  destruct skip as [|k]; [|apply IH].
  rewrite quoteRunes_step.
  destruct (if (N_of_ascii c0 <? 0x80)%N then (N_of_ascii c0, 1)
            else DecodeRuneInString (String c0 rest)) as [r width].
  rewrite noControl_app, IH, andb_true_r.
  destruct (Nat.eqb width 1 && (r =? RuneError)%N).
  - now rewrite noControl_app, hexDigits_noControl.
  - apply appendEscapedRune_noControl.
Qed.

(** A name that does not itself start with a double quote comes out of
    [quote] without any ASCII control character: no newline, carriage
    return, tab or NUL of the name reaches a header line as it is. *)
Theorem quote_no_control (in_ : string) :
  HasPrefix in_ (String DQ "") = false ->
  noControl (quote in_) = true
  /\ contains LF (quote in_) = false.
Proof.
  intros Hq.
  assert (Hn : noControl (quote in_) = true).
  { unfold quote. rewrite Hq. simpl.
    destruct (String.eqb_spec in_ "/dev/null") as [->|_]; [reflexivity|].
    unfold strconvQuote. simpl.
    now rewrite noControl_app, quoteRunes_noControl. }
  split; [exact Hn|].
  induction (quote in_) as [|c s IH]; [reflexivity|].
  simpl in Hn. apply andb_true_iff in Hn as [Hc Hs].
  simpl. rewrite (IH Hs), orb_false_r.
  unfold Ascii.eqb. destruct c as [b0 b1 b2 b3 b4 b5 b6 b7].
  destruct b0, b1, b2, b3, b4, b5, b6, b7; try reflexivity; discriminate Hc.
Qed.

Lemma HasPrefix_nil (s : string) : HasPrefix s "" = true.
Proof. now destruct s. Qed.

Lemma quote_starts (in_ : string) :
  quote in_ = "/dev/null" \/ HasPrefix (quote in_) (String DQ "") = true.
Proof.
  unfold quote.
  destruct (String.eqb_spec in_ "/dev/null") as [->|_]; [now left|].
  destruct (HasPrefix in_ (String DQ "")) eqn:Hq; simpl; [now right|].
  right. apply HasPrefix_nil.
Qed.

Lemma quote_unchanged (in_ : string) :
  in_ = "/dev/null" \/ HasPrefix in_ (String DQ "") = true -> quote in_ = in_.
Proof.
  unfold quote. intros [->|Hq]; [reflexivity|].
  rewrite Hq. simpl. now destruct (String.eqb in_ "/dev/null").
Qed.

Lemma quote_quote (in_ : string) : quote (quote in_) = quote in_.
Proof. apply quote_unchanged, quote_starts. Qed.

Lemma quote_not_empty (in_ : string) : quote in_ <> "".
Proof.
  destruct (quote_starts in_) as [E|E]; [rewrite E; discriminate|].
  intros E'. rewrite E' in E. discriminate E.
Qed.

(** [quote] changes nothing when applied a second time, and the texts it
    leaves as they are, are [/dev/null] and those that start with a double
    quote, and no other: it puts every other name in quotes, a plain one
    and the empty one too. *)
Theorem quote_idempotent (in_ : string) :
  quote (quote in_) = quote in_
  /\ (quote in_ = in_ <-> in_ = "/dev/null" \/ HasPrefix in_ (String DQ "") = true)
  /\ quote in_ <> "".
Proof.
  split; [apply quote_quote|]. split; [|apply quote_not_empty].
  split; [|apply quote_unchanged].
  intros E. rewrite <- E. apply quote_starts.
Qed.

(** Two different ASCII names that do not start with a double quote are
    never quoted alike. *)
Theorem quote_distinct (a b : string) :
  isASCII a = true -> isASCII b = true ->
  HasPrefix a (String DQ "") = false -> HasPrefix b (String DQ "") = false ->
  a <> b -> quote a <> quote b.
Proof.
  intros Ha Hb Hqa Hqb Hab.
  assert (Hform : forall x, isASCII x = true -> HasPrefix x (String DQ "") = false ->
            x <> "/dev/null" -> quote x = String DQ (escapeAll x ++ String DQ "")).
  { intros x Hx Hq Hd. unfold quote. apply String.eqb_neq in Hd.
    rewrite Hd, Hq. simpl. unfold strconvQuote. now rewrite quoteRunes_ascii. }
  destruct (String.eqb_spec a "/dev/null") as [Ea|Ea];
    destruct (String.eqb_spec b "/dev/null") as [Eb|Eb].
  - congruence.
  - subst a. rewrite (Hform b Hb Hqb Eb). discriminate.
  - subst b. rewrite (Hform a Ha Hqa Ea). discriminate.
  - rewrite (Hform a Ha Hqa Ea), (Hform b Hb Hqb Eb). intros [= E].
    pose proof (decodeFrom_escapeAll a "" "" Ha) as Da.
    pose proof (decodeFrom_escapeAll b "" "" Hb) as Db.
    rewrite E in Da. rewrite Da in Db. apply Hab. now injection Db.
Qed.

Lemma xheaderLine_quoted (origName newName xheader : string) :
  xheaderLine true origName newName xheader = quotedXheader origName newName xheader ++ nl.
Proof.
  unfold xheaderLine, quotedXheader.
  repeat match goal with
         | |- context [if HasPrefix ?s ?p then _ else _] => destruct (HasPrefix s p)
         end; rewrite ?append_assoc; reflexivity.
Qed.

Lemma HasPrefix_app (pre s : string) : HasPrefix (pre ++ s) pre = true.
Proof.
  unfold HasPrefix. induction pre as [|c pre IH]; simpl; [now destruct s|].
  now destruct (ascii_dec c c).
Qed.

Lemma quotedXheader_again (origName newName xheader : string) :
  quotedXheader (quote origName) (quote newName) (quotedXheader origName newName xheader)
  = quotedXheader origName newName xheader.
Proof.
  destruct (HasPrefix xheader "diff --git") eqn:E1.
  { assert (E : quotedXheader origName newName xheader
                = "diff --git" ++ (" " ++ quote origName ++ " " ++ quote newName))
      by (unfold quotedXheader; now rewrite E1).
    rewrite E. unfold quotedXheader. rewrite HasPrefix_app.
    simpl. now rewrite !quote_quote. }
  destruct (HasPrefix xheader "rename from ") eqn:E2.
  { assert (E : quotedXheader origName newName xheader
                = "rename from " ++ quote (dropString 12 xheader))
      by (unfold quotedXheader; now rewrite E1, E2).
    rewrite E. unfold quotedXheader. rewrite HasPrefix_app.
    change (HasPrefix ("rename from " ++ ?y) "diff --git") with false.
    cbn [dropString append]. now rewrite quote_quote. }
  destruct (HasPrefix xheader "rename to ") eqn:E3.
  { assert (E : quotedXheader origName newName xheader
                = "rename to " ++ quote (dropString 10 xheader))
      by (unfold quotedXheader; now rewrite E1, E2, E3).
    rewrite E. unfold quotedXheader. rewrite HasPrefix_app.
    change (HasPrefix ("rename to " ++ ?y) "diff --git") with false.
    change (HasPrefix ("rename to " ++ ?y) "rename from ") with false.
    cbn [dropString append]. now rewrite quote_quote. }
  assert (E : quotedXheader origName newName xheader = xheader)
    by (unfold quotedXheader; now rewrite E1, E2, E3).
  rewrite E. unfold quotedXheader. now rewrite E1, E2, E3.
Qed.

(** With quoted names, printing is stable: the file diff that holds the
    names and the extended header lines as [PrintFileDiff] has written them
    for [d] is printed as [d] is. *)
Theorem PrintFileDiff_requoted (d : FileDiff) (options : list PrintFileDiffOption) :
  NewName d <> "" ->
  quoteNames (getOptions options) = true ->
  PrintFileDiff (requoted d) options = PrintFileDiff d options.
Proof.
  intros Hnew Hq. rewrite !PrintFileDiff_result. unfold fileDiffResult.
  assert (Hext : extendedHeaders options (OrigName (requoted d)) (NewName (requoted d))
                   (Extended (requoted d))
                 = extendedHeaders options (OrigName d) (NewName d) (Extended d)).
  { unfold extendedHeaders, requoted. simpl. rewrite Hq, map_map. f_equal.
    apply map_ext. intros x.
    now rewrite !xheaderLine_quoted, quotedXheader_again. }
  rewrite Hext. unfold fileHeaderLine. rewrite Hq.
  apply String.eqb_neq in Hnew. rewrite Hnew.
  replace (String.eqb (NewName (requoted d)) "") with false
    by (symmetry; apply String.eqb_neq, quote_not_empty).
  simpl. now rewrite !quote_quote.
Qed.

End Quoting.

(** ** The permutations of the test of the ordering *)

Local Open Scope list_scope.

Lemma removeAt_length {A : Type} (i : nat) (l : list A) :
  i < List.length l -> List.length (removeAt i l) = List.length l - 1.
Proof.
  revert i. induction l as [|x l IH]; intros i Hi; [simpl in Hi; lia|].
  destruct i as [|i]; simpl; [lia|].
  simpl in Hi. rewrite IH by lia. lia.
Qed.

Lemma removeAt_perm {A : Type} (d : A) (i : nat) (l : list A) :
  i < List.length l -> Permutation (nth i l d :: removeAt i l) l.
Proof.
  revert i. induction l as [|x l IH]; intros i Hi; [simpl in Hi; lia|].
  destruct i as [|i]; simpl; [reflexivity|].
  simpl in Hi. rewrite perm_swap. constructor. apply IH. lia.
Qed.

Lemma flat_map_all_length {A B : Type} (f : A -> list B) (l : list A) (c : nat) :
  (forall x, In x l -> List.length (f x) = c) ->
  List.length (flat_map f l) = List.length l * c.
Proof.
  induction l as [|x l IH]; intros H; simpl; [reflexivity|].
  rewrite length_app, IH, H; [reflexivity | now left |].
  intros y Hy. apply H. now right.
Qed.

Lemma permutations_sound (fuel : nat) (slice p : list string) :
  In p (permutations fuel slice) -> Permutation p slice.
Proof.
  revert slice p. induction fuel as [|fuel IH]; intros slice p; simpl; [tauto|].
  destruct (Nat.eqb (List.length slice) 1).
  - intros [<-|[]]. reflexivity.
  - rewrite in_flat_map. intros [i [Hi Hp]].
    apply in_seq in Hi. apply in_map_iff in Hp as [q [<- Hq]].
    apply IH in Hq.
    rewrite <- Permutation_cons_append, Hq.
    apply removeAt_perm. lia.
Qed.

Lemma permutations_complete (fuel : nat) (slice p : list string) :
  slice <> [] -> List.length slice <= fuel ->
  Permutation p slice -> In p (permutations fuel slice).
Proof.
  revert slice p. induction fuel as [|fuel IH]; intros slice p Hne Hlen Hp.
  - destruct slice; [contradiction | simpl in Hlen; lia].
  - simpl. destruct (Nat.eqb (List.length slice) 1) eqn:E1.
    + apply Nat.eqb_eq in E1.
      destruct slice as [|x [|y slice]]; try discriminate E1.
      left. symmetry. apply Permutation_length_1_inv. now symmetry.
    + apply Nat.eqb_neq in E1.
      assert (Hl : 2 <= List.length slice)
        by (destruct slice as [|x [|y slice]]; [contradiction | simpl in E1; lia | simpl; lia]).
      assert (Hpne : p <> [])
        by (intros ->; apply Permutation_length in Hp; simpl in Hp; lia).
      destruct (exists_last Hpne) as [q [v ->]].
      assert (Hv : In v slice)
        by (apply (Permutation_in _ Hp), in_or_app; right; now left).
      destruct (In_nth _ _ "" Hv) as [i [Hi Hnth]].
      apply in_flat_map. exists i. split; [apply in_seq; lia|].
      rewrite Hnth. apply in_map_iff. exists q. split; [reflexivity|]. apply IH.
      * intros E. apply (f_equal (@List.length string)) in E.
        rewrite removeAt_length in E by exact Hi. simpl in E. lia.
      * rewrite removeAt_length by exact Hi. lia.
      * apply (Permutation_cons_inv (a := v)).
        rewrite Permutation_cons_append, Hp, <- Hnth.
        symmetry. now apply removeAt_perm.
Qed.

(** Given a slice that is not empty, [permutations] returns the
    arrangements of its elements and nothing else: a list is among those
    returned exactly when it is a permutation of the slice. *)
Theorem permutations_exact (fuel : nat) (slice : list string) :
  slice <> [] -> List.length slice <= fuel ->
  forall p, In p (permutations fuel slice) <-> Permutation p slice.
Proof.
  intros Hne Hlen p. split.
  - apply permutations_sound.
  - now apply permutations_complete.
Qed.

(** Of a slice of [n] elements, [n] at least one, [permutations] returns
    [n!] lists; of the empty slice it returns none, not the one empty
    arrangement. *)
Theorem permutations_count (fuel : nat) (slice : list string) :
  List.length slice <= fuel ->
  List.length (permutations fuel slice) =
  match slice with
  | [] => 0
  | _ :: _ => fact (List.length slice)
  end.
Proof.
  revert slice. induction fuel as [|fuel IH]; intros slice Hlen.
  - destruct slice; [reflexivity | simpl in Hlen; lia].
  - simpl permutations. destruct (Nat.eqb (List.length slice) 1) eqn:E1.
    + apply Nat.eqb_eq in E1. rewrite E1.
      destruct slice; [discriminate E1 | reflexivity].
    + apply Nat.eqb_neq in E1.
      destruct slice as [|x slice]; [reflexivity|].
      assert (Hl : 2 <= List.length (x :: slice))
        by (destruct slice; simpl in *; lia).
      rewrite (flat_map_all_length _ _ (fact (List.length slice))).
      * rewrite length_seq. reflexivity.
      * intros i Hi. apply in_seq in Hi. rewrite length_map, IH.
        -- destruct (removeAt i (x :: slice)) as [|y tl] eqn:Er.
           ++ apply (f_equal (@List.length string)) in Er.
              rewrite removeAt_length in Er by lia. simpl in Er, Hl. lia.
           ++ rewrite <- Er, removeAt_length by lia. simpl. now rewrite Nat.sub_0_r.
        -- rewrite removeAt_length by lia. simpl in *. lia.
Qed.

(** ** The further theorems on sample values *)

Local Open Scope list_scope.

Lemma PrintHunks_ignores_spare_witness :
  PrintHunks [hunkE] =
    Ok (bytes_of ("@@ -3,1 +3,0 @@" ++ nl ++ "-a" ++ nl
                  ++ "\ No newline at end of file" ++ nl))
  /\ (exists p, slice_hi (Body hunkF) (N.to_nat (OrigNoNewlineAt hunkF)) = Ok p)
  /\ PrintHunks [hunkE; hunkF] = Panic.
Proof.
  assert (Hin : In hunkF [hunkE; hunkF]) by (simpl; tauto).
  assert (Hmark : len (Body hunkF) < N.to_nat (OrigNoNewlineAt hunkF) <= cap (Body hunkF))
    by (unfold len, cap; simpl; lia).
  split; [|exact (proj2 (PrintHunks_ignores_spare [hunkE; hunkF]) hunkF Hin Hmark)].
  rewrite (proj1 (PrintHunks_ignores_spare [hunkE])). reflexivity.
Defined.

Lemma PrintHunks_whole_lines_witness :
  [hunkG; hunkB] <> []
  /\ PrintHunks [hunkG; hunkB] =
     Ok (bytes_of ("@@ -1,0 +1,0 @@" ++ nl
                   ++ nl ++ "\ No newline at end of file" ++ nl
                   ++ "@@ -7,1 +7,1 @@" ++ nl
                   ++ "-a" ++ nl ++ "\ No newline at end of file" ++ nl
                   ++ "+b" ++ nl ++ "\ No newline at end of file" ++ nl))
  /\ exists pre,
       bytes_of ("@@ -1,0 +1,0 @@" ++ nl
                 ++ nl ++ "\ No newline at end of file" ++ nl
                 ++ "@@ -7,1 +7,1 @@" ++ nl
                 ++ "-a" ++ nl ++ "\ No newline at end of file" ++ nl
                 ++ "+b" ++ nl ++ "\ No newline at end of file" ++ nl)
       = pre ++ [LFb].
Proof.
  assert (Hne : [hunkG; hunkB] <> []) by discriminate.
  split; [exact Hne|]. split; [reflexivity|].
  exact (proj1 (PrintHunks_whole_lines [hunkG; hunkB] _ Hne eq_refl)).
Defined.

Lemma PrintFileDiff_returns_witness :
  (exists out, PrintFileDiff deletedFile [] = Ok out)
  /\ ~ (exists out, PrintFileDiff (renamed [hunkB; hunkC]) [] = Ok out).
Proof.
  split.
  - apply (proj2 (PrintFileDiff_returns deletedFile [])). now left.
  - intros Hout.
    apply (proj1 (PrintFileDiff_returns (renamed [hunkB; hunkC]) [])) in Hout.
    destruct Hout as [E|[E|[hunks [E Hall]]]]; try discriminate E.
    injection E as <-. inversion Hall as [|h tl _ Htl]. inversion Htl as [|h' tl' Hc _].
    unfold offsetInBody, len in Hc. simpl in Hc. lia.
Defined.

Lemma PrintMultiFileDiff_all_or_nothing_witness :
  PrintMultiFileDiff [oneLine; renamed [hunkC]; deletedFile] [] = Panic.
Proof.
  apply (proj2 (proj1 (PrintMultiFileDiff_all_or_nothing
                         [oneLine; renamed [hunkC]; deletedFile] []))).
  exists (renamed [hunkC]). split; [simpl; tauto|]. split; [discriminate|].
  exists [hunkC]. split; [reflexivity|].
  constructor. unfold markBeyondBody, len. simpl. lia.
Defined.

Lemma quote_no_control_witness :
  HasPrefix ("a" ++ String "009"%char ("b" ++ nl))%string (String DQ "") = false
  /\ quote ("a" ++ String "009"%char ("b" ++ nl))%string = lit "'a\tb\n'"
  /\ noControl (quote ("a" ++ String "009"%char ("b" ++ nl))%string) = true.
Proof.
  split; [reflexivity|]. split; [reflexivity|].
  exact (proj1 (quote_no_control ("a" ++ String "009"%char ("b" ++ nl))%string eq_refl)).
Defined.

Lemma quote_distinct_witness :
  quote "a b" = lit "'a b'"
  /\ quote "a  b" <> quote "a b".
Proof.
  split; [reflexivity|].
  apply (quote_distinct "a  b" "a b"); try reflexivity. discriminate.
Defined.

Lemma PrintFileDiff_requoted_witness :
  NewName (renamed [hunkA]) <> ""%string
  /\ quoteNames (getOptions [WithQuotedNames]) = true
  /\ Extended (requoted (renamed [hunkA])) =
     [ lit "diff --git 'a/old name' 'b/new name'"; "similarity index 90%"%string;
       lit "rename from 'old name'"; lit "rename to 'new name'" ]
  /\ PrintFileDiff (requoted (renamed [hunkA])) [WithQuotedNames] =
     PrintFileDiff (renamed [hunkA]) [WithQuotedNames].
Proof.
  assert (Hn : NewName (renamed [hunkA]) <> ""%string) by discriminate.
  split; [exact Hn|]. split; [reflexivity|]. split; [reflexivity|].
  exact (PrintFileDiff_requoted (renamed [hunkA]) [WithQuotedNames] Hn eq_refl).
Defined.

Lemma permutations_exact_witness :
  possibleHeaders <> []
  /\ List.length possibleHeaders <= 7
  /\ In (tl possibleHeaders ++ [hd ""%string possibleHeaders])
        (permutations 7 possibleHeaders).
Proof.
  assert (Hne : possibleHeaders <> []) by discriminate.
  assert (Hlen : List.length possibleHeaders <= 7) by (simpl; lia).
  split; [exact Hne|]. split; [exact Hlen|].
  apply (proj2 (permutations_exact 7 possibleHeaders Hne Hlen _)).
  symmetry. apply Permutation_cons_append.
Defined.

Lemma permutations_count_witness :
  List.length possibleHeaders <= 7
  /\ List.length (permutations 7 possibleHeaders) = fact 7
  /\ List.length (permutations 7 []) = 0.
Proof.
  assert (Hlen : List.length possibleHeaders <= 7) by (simpl; lia).
  split; [exact Hlen|]. split.
  - exact (permutations_count 7 possibleHeaders Hlen).
  - apply (permutations_count 7 []). simpl. lia.
Defined.
